(** * ol/source/TileArcGISRest

    A shallow embedding of [src/ol/source/TileArcGISRest.js]: the layer
    source that builds export-image request URLs for ArcGIS REST Map and
    Image services.

    The JavaScript is embedded as follows.
    - Strings are [string] (byte strings, read as UTF-8).
    - Numbers are kept abstract behind the [JsNumber] interface (the
      primitive operations of IEEE doubles the file relies on); tile
      coordinates and array lengths are integers ([Z]).  An instance for
      the integral numbers, [jsint], is used to run the code.
    - A plain object such as [params_] is an association list in the
      order [for ... in] and [Object.keys] enumerate it; objects live in
      a heap and are passed around by reference, as in the source.
    - Methods are computations in a state monad over the heap and the
      fields of [this]; a thrown exception is a [Throw] completion. *)

From Stdlib Require Import ZArith NArith Ascii String List Sorted Lia.
From stdpp Require Import base tactics option list strings pretty.

(** ** Strings *)

Module Str.

(** [Array.prototype.join] on an array of strings. *)
Definition join (sep : string) (l : list string) : string :=
  String.concat sep l.

(** [String.prototype.split] with a one-character separator. *)
Fixpoint split (sep : ascii) (s : string) : list string :=
  match s with
  | EmptyString => [EmptyString]
  | String c s' =>
      if Ascii.eqb c sep then EmptyString :: split sep s'
      else match split sep s' with
           | [] => [String c EmptyString]
           | p :: ps => String c p :: ps
           end
  end.

(** [Array.prototype.pop] returns the last element; [split] never
    returns the empty array, so the default is not observed. *)
Definition pop (l : list string) : string := List.last l "undefined".

(** [s.indexOf(c) !== -1]. *)
Fixpoint contains (c : ascii) (s : string) : bool :=
  match s with
  | EmptyString => false
  | String c' s' => Ascii.eqb c' c || contains c s'
  end.

(** [strip_suffix suf s] is [Some p] exactly when [s = p +:+ suf]. *)
Fixpoint strip_suffix (suf s : string) : option string :=
  if String.eqb s suf then Some EmptyString
  else match s with
       | EmptyString => None
       | String c s' => String c <$> strip_suffix suf s'
       end.

(** [url.replace(/NAME\/?$/, repl)] for a literal NAME: the pattern is
    anchored at the end of the string, so it matches at most once,
    either on NAME followed by "/" or on NAME alone; the matched
    suffix is replaced by [repl], and a string that does not match is
    returned as it is. *)
Definition replace_at_end (name repl url : string) : string :=
  match strip_suffix (name +:+ "/") url with
  | Some p => p +:+ repl
  | None =>
      match strip_suffix name url with
      | Some p => p +:+ repl
      | None => url
      end
  end.

Definition in_range (lo hi : nat) (c : ascii) : bool :=
  (lo <=? nat_of_ascii c)%nat && (nat_of_ascii c <=? hi)%nat.

(** The characters [encodeURIComponent] leaves alone:
    A-Z a-z 0-9 - _ . ! ~ * ' ( ) *)
Definition unreserved (c : ascii) : bool :=
  in_range 65 90 c || in_range 97 122 c || in_range 48 57 c
  || contains c "-_.!~*'()".

Definition hex_digit (n : nat) : ascii :=
  if (n <? 10)%nat then ascii_of_nat (48 + n) else ascii_of_nat (55 + n).

(** [encodeURIComponent]: every byte of the UTF-8 form that is not
    unreserved becomes %XX with upper-case hexadecimal digits.  (A lone
    surrogate, on which the JavaScript function throws, has no UTF-8
    form and is not a string of this model.) *)
Fixpoint encodeURIComponent (s : string) : string :=
  match s with
  | EmptyString => EmptyString
  | String c s' =>
      if unreserved c then String c (encodeURIComponent s')
      else
        let n := nat_of_ascii c in
        String "%" (String (hex_digit (n / 16))
                      (String (hex_digit (n mod 16))
                         (encodeURIComponent s')))
  end.

End Str.

(** ** Numbers and values *)

(** The operations on JavaScript numbers that the module uses. *)
Class JsNumber (num : Type) := {
  n_of_Z : Z → num;            (* an integer literal *)
  n_mul : num → num → num;     (* [x * y] *)
  n_round : num → num;         (* [Math.round] *)
  n_eqb : num → num → bool;    (* [x == y] on numbers *)
  n_truthy : num → bool;       (* ToBoolean: false on 0 and NaN *)
  n_to_string : num → string;  (* ToString *)
  n_of_string : string → num   (* ToNumber on a string *)
}.

Section Values.
Context {num : Type} `{JsNumber num}.

(** A parameter value: "scalar value (string, number, boolean)". *)
Inductive value :=
| VString (s : string)
| VNumber (n : num)
| VBoolean (b : bool).

Definition ToString (v : value) : string :=
  match v with
  | VString s => s
  | VNumber n => n_to_string n
  | VBoolean b => if b then "true" else "false"
  end.

Definition ToBoolean (v : value) : bool :=
  match v with
  | VString s => negb (String.eqb s "")
  | VNumber n => n_truthy n
  | VBoolean b => b
  end.

Definition ToNumber (v : value) : num :=
  match v with
  | VString s => n_of_string s
  | VNumber n => n
  | VBoolean b => n_of_Z (if b then 1 else 0)
  end.

End Values.
Arguments value : clear implicits.

(** ** Plain objects

    An object is the list of its own enumerable properties in the order
    in which [for ... in], [Object.keys] and [Object.assign] visit them:
    array-index keys first, in ascending numeric order, then every other
    key in the order of its creation. *)

Abbreviation obj num := (list (string * value num)).

Section Objects.
Context {num : Type}.

Fixpoint digits_value (acc : N) (s : string) : option N :=
  match s with
  | EmptyString => Some acc
  | String c s' =>
      if Str.in_range 48 57 c
      then digits_value (10 * acc + (N_of_ascii c - 48)) s'
      else None
  end.

(** A key is an array index when it is the canonical decimal form of
    an integer below 2^32 - 1. *)
Definition array_index (key : string) : option N :=
  match key with
  | EmptyString => None
  | String "0" EmptyString => Some 0%N
  | String "0" _ => None
  | _ => match digits_value 0 key with
         | Some n => if (n <? 4294967295)%N then Some n else None
         | None => None
         end
  end.

(** [enumerated_before k k']: a property created under key [k] is
    enumerated before the existing property [k']. *)
Definition enumerated_before (k k' : string) : bool :=
  match array_index k, array_index k' with
  | Some i, Some j => (i <? j)%N
  | Some _, None => true
  | None, _ => false
  end.

(** [o[key]], [None] for undefined. *)
Fixpoint obj_get (key : string) (o : obj num) : option (value num) :=
  match o with
  | [] => None
  | (k, w) :: o' => if String.eqb k key then Some w else obj_get key o'
  end.

(** [o[key] = v]: an existing property keeps its place. *)
Fixpoint obj_set (key : string) (v : value num) (o : obj num) : obj num :=
  match o with
  | [] => [(key, v)]
  | (k, w) :: o' =>
      if String.eqb k key then (k, v) :: o'
      else if enumerated_before key k then (key, v) :: (k, w) :: o'
      else (k, w) :: obj_set key v o'
  end.

(** Modelled from the spec: [assign] of ../obj.js ([Object.assign]),
    "shallow overwrite: each key in newParams replaces the
    corresponding key in the stored set; keys not present in newParams
    are retained".  The properties of [source] are copied in their
    enumeration order. *)
Definition obj_assign (target source : obj num) : obj num :=
  fold_left (λ t kv, obj_set kv.1 kv.2 t) source target.

(** [key_order k k']: [k] may be enumerated before [k']. *)
Definition key_order (k k' : string) : Prop := enumerated_before k' k = false.

(** The keys of a well-formed object are pairwise distinct and in
    enumeration order. *)
Definition obj_wf (o : obj num) : Prop :=
  NoDup (o.*1) ∧ StronglySorted key_order (o.*1).

End Objects.

(** ** Collaborators: tile coordinates, sizes, extents, grids *)

(** [ol.TileCoord], the array [[z, x, y]]. *)
Record TileCoord := { tc_z : Z; tc_x : Z; tc_y : Z }.

(** [ol.proj.Projection], of which only [getCode()] is used. *)
Record Projection := { getCode : string }.

Section Geometry.
Context {num : Type}.

(** [ol.Size], the array [[width, height]]. *)
Record Size := { width : num; height : num }.

(** [ol.Extent], the array [[minX, minY, maxX, maxY]]. *)
Record Extent := { minX : num; minY : num; maxX : num; maxY : num }.

Definition extent_elements (e : Extent) : list num :=
  [minX e; minY e; maxX e; maxY e].

(** [number|ol.Size], what [TileGrid.getTileSize] returns. *)
Inductive SizeLike :=
| SizeNumber (n : num)
| SizeArray (s : Size).

(** Modelled from the spec: the tile grid of ../tilegrid/TileGrid.js,
    which "provides resolution count per zoom, tile size per zoom, and
    extent for a given tile coordinate".  [getTileCoordExtent] is the
    extent the grid computes; the method writes it into the buffer it
    is handed (see [getTileCoordExtent_into] below). *)
Record TileGrid := {
  getResolutions : list num;
  getTileCoordExtent : TileCoord → Extent;
  getTileSize : Z → SizeLike
}.

End Geometry.
Arguments Size : clear implicits.
Arguments Extent : clear implicits.
Arguments SizeLike : clear implicits.
Arguments TileGrid : clear implicits.

(** What the module imports, and inherits from [ol/source/TileImage],
    whose code is elsewhere.  The optional output buffer that [toSize]
    and [scale] accept ([this.tmpSize], a field of the parent class) is
    left out: their results are taken to depend on the size and the
    ratio alone. *)
Class Imports (num : Type) := {
  createEmpty : Extent num;                      (* ../extent.js *)
  toSize : SizeLike num → Size num;              (* ../size.js *)
  scaleSize : Size num → num → Size num;         (* ../size.js, [scale] *)
  tileCoordHash : TileCoord → Z;                 (* ../tilecoord.js, [hash] *)
  getTileGridForProjection : Projection → TileGrid num
}.

(** Modelled from the spec: [modulo] of ../math.js, "index =
    hash(tileCoordinate) mod urlCount".  The remainder by zero is NaN in
    JavaScript, here [None]. *)
Definition modulo (a b : Z) : option Z :=
  if (b =? 0)%Z then None else Some (a mod b)%Z.

(** [urls[index]] for a number [index]: undefined ([None]) when the
    index is NaN, negative or beyond the last element. *)
Definition array_get {A : Type} (l : list A) (index : option Z) : option A :=
  match index with
  | Some i => if (i <? 0)%Z then None else l !! Z.to_nat i
  | None => None
  end.

Section AppendParams.
Context {num : Type} `{JsNumber num}.

Definition query_entry (kv : string * value num) : string :=
  kv.1 +:+ "=" +:+ Str.encodeURIComponent (ToString kv.2).

(** Modelled from the spec: [appendParams] of ../uri.js, "append all
    parameters as a URL query string, URL-encoding each value; if the
    base URL already contains a query string, parameters are appended
    rather than creating a second ?". *)
Definition appendParams (uri : string) (params : obj num) : string :=
  let qs := Str.join "&" (query_entry <$> params) in
  if Str.contains "?" uri then uri +:+ "&" +:+ qs else uri +:+ "?" +:+ qs.

End AppendParams.

(** ** The state: a heap of objects and the fields of [this] *)

Abbreviation ref := nat.

(** How a call completes: with a value, or by throwing. *)
Inductive exn := TypeError.

Inductive completion (A : Type) :=
| Return (a : A)
| Throw (e : exn).
Arguments Return {A} a.
Arguments Throw {A} e.

Section State.
Context {num : Type}.

(** The fields of a [TileArcGISRest] instance.  [urls] and [tileGrid]
    are set by the parent constructor and may be null ([None]);
    [params_] refers to an object in the heap; [tmpExtent_] holds the
    four numbers of the scratch array; [key_] is what [setKey] stores. *)
Record Source := {
  urls : option (list string);
  tileGrid : option (TileGrid num);
  params_ : ref;
  tmpExtent_ : Extent num;
  key_ : string
}.

Record State := {
  heap : list (obj num);
  this : Source
}.

Definition M (A : Type) : Type := State → A * State.

Definition ret {A} (a : A) : M A := λ s, (a, s).

Definition bind {A B} (m : M A) (k : A → M B) : M B :=
  λ s, let (a, s') := m s in k a s'.

(** [{...}]: a new object. *)
Definition alloc (o : obj num) : M ref :=
  λ s, (length (heap s), {| heap := heap s ++ [o]; this := this s |}).

(** The properties of the object at [r]. *)
Definition load (r : ref) : M (obj num) :=
  λ s, (default [] (heap s !! r), s).

(** [r[key]] *)
Definition get_prop (r : ref) (key : string) : M (option (value num)) :=
  λ s, (obj_get key (default [] (heap s !! r)), s).

(** [r[key] = v] *)
Definition set_prop (r : ref) (key : string) (v : value num) : M unit :=
  λ s, (tt, {| heap := alter (obj_set key v) r (heap s); this := this s |}).

(** [assign(target, source)]: Object.assign on two references. *)
Definition assign (target source : ref) : M unit :=
  λ s, (tt, {| heap := alter (λ t, obj_assign t (default [] (heap s !! source)))
                             target (heap s);
               this := this s |}).

Definition get_this : M Source := λ s, (this s, s).

(** The instance with one field changed. *)
Definition with_tmpExtent (self : Source) (e : Extent num) : Source :=
  {| urls := urls self; tileGrid := tileGrid self; params_ := params_ self;
     tmpExtent_ := e; key_ := key_ self |}.

Definition with_key (self : Source) (key : string) : Source :=
  {| urls := urls self; tileGrid := tileGrid self; params_ := params_ self;
     tmpExtent_ := tmpExtent_ self; key_ := key |}.

(** [this.tmpExtent_] overwritten in place. *)
Definition set_tmpExtent (e : Extent num) : M unit :=
  λ s, (tt, {| heap := heap s; this := with_tmpExtent (this s) e |}).

(** Modelled from the spec: [setKey] of ../source/Tile.js, which
    stores the cache key. *)
Definition setKey (key : string) : M unit :=
  λ s, (tt, {| heap := heap s; this := with_key (this s) key |}).

End State.
Arguments Source : clear implicits.
Arguments State : clear implicits.
Arguments M : clear implicits.

Notation "x <- m ;; k" := (bind m (λ x, k))
  (at level 20, m at level 99, k at level 200, only parsing).
Notation "m ;; k" := (bind m (λ _, k))
  (at level 100, k at level 200, only parsing, right associativity).

(** ** The methods of TileArcGISRest *)

Section Methods.
Context {num : Type} `{JsNumber num} `{Imports num}.

(** The options the constructor reads.  [url] is expanded into [urls]
    by the parent class and is not kept apart here. *)
Record Options := {
  opt_urls : option (list string);
  opt_tileGrid : option (TileGrid num);
  opt_params : option ref
}.

(** Lines 108-113: the loop over the keys of the parameters, and the
    join. *)
Definition cache_key (params : obj num) : string :=
  let res := (λ kv, kv.1 +:+ "-" +:+ ToString kv.2) <$> params in
  Str.join "/" res.

(** Lines 107-114. *)
Definition getKeyForParams_ : M num string :=
  self <- get_this ;;
  params <- load (params_ self) ;;
  ret (cache_key params).

(** Lines 67-98: [params_] is the caller's object when one is given,
    a new empty object otherwise. *)
Definition TileArcGISRest (options : Options) (h : list (obj num)) : State num :=
  let (params, h') :=
    match opt_params options with
    | Some r => (r, h)
    | None => (length h, h ++ [[]])
    end in
  let s := {| heap := h';
              this := {| urls := opt_urls options;
                         tileGrid := opt_tileGrid options;
                         params_ := params;
                         tmpExtent_ := createEmpty;
                         key_ := "" |} |} in
  ((key <- getKeyForParams_ ;; setKey key) s).2.

(** Lines 123-125. *)
Definition getParams : M num ref :=
  self <- get_this ;;
  ret (params_ self).

(** Lines 153-155: [params['DPI'] ? params['DPI'] * pixelRatio
    : 90 * pixelRatio], rounded. *)
Definition scaled_dpi (dpi : option (value num)) (pixelRatio : num) : num :=
  n_round
    match dpi with
    | Some d =>
        if ToBoolean d then n_mul (ToNumber d) pixelRatio
        else n_mul (n_of_Z 90) pixelRatio
    | None => n_mul (n_of_Z 90) pixelRatio
    end.

(** Lines 157-163; [None] is undefined. *)
Definition select_url (urls : list string) (tileCoord : TileCoord) : option string :=
  if (length urls =? 1)%nat then urls !! 0%nat
  else
    let index := modulo (tileCoordHash tileCoord) (Z.of_nat (length urls)) in
    array_get urls index.

(** Lines 165-167. *)
Definition modify_url (url : string) : string :=
  Str.replace_at_end "ImageServer" "ImageServer/exportImage"
    (Str.replace_at_end "MapServer" "MapServer/export" url).

(** Lines 138-169.  [params] is a reference: the five assignments
    mutate the object the caller passed.  [tileExtent] is the scratch
    array of the caller, read here before anything writes to it again.
    Calling [replace] on an undefined [url] throws a TypeError. *)
Definition getRequestUrl_ (tileCoord : TileCoord) (tileSize : Size num)
    (tileExtent : Extent num) (pixelRatio : num) (projection : Projection)
    (params : ref) : M num (completion (option string)) :=
  self <- get_this ;;
  match urls self with
  | None => ret (Return None)
  | Some urls =>
      let srid := Str.pop (Str.split ":" (getCode projection)) in
      set_prop params "SIZE"
        (VString (n_to_string (width tileSize) +:+ ","
                  +:+ n_to_string (height tileSize))) ;;
      set_prop params "BBOX"
        (VString (Str.join "," (n_to_string <$> extent_elements tileExtent))) ;;
      set_prop params "BBOXSR" (VString srid) ;;
      set_prop params "IMAGESR" (VString srid) ;;
      dpi <- get_prop params "DPI" ;;
      set_prop params "DPI" (VNumber (scaled_dpi dpi pixelRatio)) ;;
      match select_url urls tileCoord with
      | None => ret (Throw TypeError)
      | Some url =>
          let modifiedUrl := modify_url url in
          query <- load params ;;
          ret (Return (Some (appendParams modifiedUrl query)))
      end
  end.

(** Lines 175-177. *)
Definition getTilePixelRatio (pixelRatio : num) : num := pixelRatio.

(** Modelled from the spec: the call
    [tileGrid.getTileCoordExtent(tileCoord, this.tmpExtent_)] of lines
    194-195, "compute tileExtent from the tile grid for the given
    coordinate into the scratch extent buffer (output written in
    place)".  The scratch array is overwritten and returned. *)
Definition getTileCoordExtent_into (grid : TileGrid num) (tileCoord : TileCoord)
    : M num (Extent num) :=
  set_tmpExtent (getTileCoordExtent grid tileCoord) ;;
  self <- get_this ;;
  ret (tmpExtent_ self).

(** Lines 183-213. *)
Definition fixedTileUrlFunction (tileCoord : TileCoord) (pixelRatio : num)
    (projection : Projection) : M num (completion (option string)) :=
  self <- get_this ;;
  let tileGrid :=
    match tileGrid self with
    | Some g => g
    | None => getTileGridForProjection projection
    end in
  if (Z.of_nat (length (getResolutions tileGrid)) <=? tc_z tileCoord)%Z
  then ret (Return None)
  else
    tileExtent <- getTileCoordExtent_into tileGrid tileCoord ;;
    let tileSize := toSize (getTileSize tileGrid (tc_z tileCoord)) in
    let tileSize :=
      if negb (n_eqb pixelRatio (n_of_Z 1))
      then scaleSize tileSize pixelRatio
      else tileSize in
    baseParams <- alloc [("F", VString "image");
                         ("FORMAT", VString "PNG32");
                         ("TRANSPARENT", VBoolean true)] ;;
    assign baseParams (params_ self) ;;
    getRequestUrl_ tileCoord tileSize tileExtent pixelRatio projection baseParams.

(** Lines 221-224. *)
Definition updateParams (params : ref) : M num unit :=
  self <- get_this ;;
  assign (params_ self) params ;;
  key <- getKeyForParams_ ;;
  setKey key.

End Methods.

(** ** Running the code: the integral numbers

    [jsint] is the part of the JavaScript numbers made of the integers,
    the two infinities and NaN.  On it multiplication, [Math.round],
    comparison and conversion to a string are exact (for integers below
    2^53 in absolute value, which is all the examples use). *)

Module Run.

Inductive jsint :=
| NaN
| Inf (negative : bool)
| Int (z : Z).

Definition mul (a b : jsint) : jsint :=
  match a, b with
  | Int x, Int y => Int (x * y)
  | Inf s, Int y | Int y, Inf s =>
      if (y =? 0)%Z then NaN else Inf (xorb s (y <? 0)%Z)
  | Inf s, Inf t => Inf (xorb s t)
  | NaN, _ | _, NaN => NaN
  end.

Definition eqb (a b : jsint) : bool :=
  match a, b with
  | Int x, Int y => (x =? y)%Z
  | Inf s, Inf t => Bool.eqb s t
  | _, _ => false
  end.

Definition truthy (a : jsint) : bool :=
  match a with
  | Int z => negb (z =? 0)%Z
  | Inf _ => true
  | NaN => false
  end.

Definition to_string (a : jsint) : string :=
  match a with
  | Int z => pretty z
  | Inf false => "Infinity"
  | Inf true => "-Infinity"
  | NaN => "NaN"
  end.

(** ToNumber on the strings that denote a [jsint]: the empty string is
    0, an optionally signed run of decimal digits is that integer, an
    optionally signed "Infinity" that infinity.  Every other string is
    read as NaN, which is what JavaScript does unless the string is a
    numeral with a fraction, an exponent, a radix prefix or white space
    around it; the examples use none of those. *)
Definition of_unsigned (s : string) : option jsint :=
  match s with
  | EmptyString => None
  | _ => if String.eqb s "Infinity" then Some (Inf false)
         else (λ n, Int (Z.of_N n)) <$> digits_value 0 s
  end.

Definition negate (a : jsint) : jsint :=
  match a with
  | NaN => NaN
  | Inf s => Inf (negb s)
  | Int z => Int (- z)
  end.

Definition of_string (s : string) : jsint :=
  match s with
  | EmptyString => Int 0
  | String "-" s' => from_option negate NaN (of_unsigned s')
  | String "+" s' => default NaN (of_unsigned s')
  | _ => default NaN (of_unsigned s)
  end.

#[global] Instance jsint_number : JsNumber jsint := {|
  n_of_Z := Int;
  n_mul := mul;
  n_round := λ a, a;
  n_eqb := eqb;
  n_truthy := truthy;
  n_to_string := to_string;
  n_of_string := of_string
|}.

(** A small grid for the examples: three zoom levels of square tiles of
    256 pixels, tile [[z, x, y]] covering the square of side
    [256 * 2^(2-z)] at column [x] and row [y]. *)
Definition example_grid : TileGrid jsint := {|
  getResolutions := [Int 4; Int 2; Int 1];
  getTileCoordExtent := λ c,
    let side := (256 * 2 ^ (2 - tc_z c))%Z in
    {| minX := Int (tc_x c * side); minY := Int (tc_y c * side);
       maxX := Int ((tc_x c + 1) * side); maxY := Int ((tc_y c + 1) * side) |};
  getTileSize := λ _, SizeNumber (Int 256)
|}.

(** Modelled from the spec: an instance of the imports for the
    examples.  A tile size given as one number stands for a square; a
    size is scaled by multiplying "both dimensions by pixelRatio"; the
    hash is "a deterministic function of the three coordinate
    components", here [(x << z) + y]; the empty extent has infinite
    bounds. *)
#[global] Instance jsint_imports : Imports jsint := {|
  createEmpty := {| minX := Inf false; minY := Inf false;
                    maxX := Inf true; maxY := Inf true |};
  toSize := λ s, match s with
                 | SizeNumber n => {| width := n; height := n |}
                 | SizeArray a => a
                 end;
  scaleSize := λ s ratio,
    {| width := mul (width s) ratio; height := mul (height s) ratio |};
  tileCoordHash := λ c, (Z.shiftl (tc_x c) (tc_z c) + tc_y c)%Z;
  getTileGridForProjection := λ _, example_grid
|}.

Definition EPSG3857 : Projection := {| getCode := "EPSG:3857" |}.

Definition mapserver : string := "https://host/arcgis/rest/services/X/MapServer".

Definition tile : TileCoord := {| tc_z := 1; tc_x := 2; tc_y := 3 |}.

(** A source over [urls], constructed in the heap [h] with the object at
    reference 0 for its parameters. *)
Definition source_in (urls : option (list string)) (h : list (obj jsint)) : State jsint :=
  TileArcGISRest {| opt_urls := urls; opt_tileGrid := None; opt_params := Some 0%nat |} h.

(** A source over [urls] whose parameters are the object [params]. *)
Definition source (urls : option (list string)) (params : obj jsint) : State jsint :=
  source_in urls [params].

(** What a call returns, and the state it leaves. *)
Definition result {A} (m : M jsint A) (s : State jsint) : A := (m s).1.
Definition after {A} (m : M jsint A) (s : State jsint) : State jsint := (m s).2.

End Run.

(** ** Vocabulary of the statements *)

Section Vocabulary.
Context {num : Type} `{JsNumber num} `{Imports num}.

(** The user parameters: the object [this.params_] refers to. *)
Definition stored (s : State num) : obj num :=
  default [] (heap s !! params_ (this s)).

(** [this.params_] refers to an allocated object, and no object of the
    heap has two properties of the same name. *)
Definition State_wf (s : State num) : Prop :=
  params_ (this s) < length (heap s) ∧ Forall obj_wf (heap s).

(** The grid of lines 185-188. *)
Definition active_grid (self : Source num) (projection : Projection) : TileGrid num :=
  match tileGrid self with
  | Some g => g
  | None => getTileGridForProjection projection
  end.

(** The grid has a resolution for the zoom level of the coordinate. *)
Definition zoom_covered (grid : TileGrid num) (tileCoord : TileCoord) : Prop :=
  (tc_z tileCoord < Z.of_nat (length (getResolutions grid)))%Z.

(** The tile size of lines 196-201. *)
Definition tile_size (grid : TileGrid num) (tileCoord : TileCoord) (pixelRatio : num)
    : Size num :=
  let size := toSize (getTileSize grid (tc_z tileCoord)) in
  if negb (n_eqb pixelRatio (n_of_Z 1)) then scaleSize size pixelRatio else size.

(** The object literal of lines 204-208. *)
Definition default_params : obj num :=
  [("F", VString "image"); ("FORMAT", VString "PNG32"); ("TRANSPARENT", VBoolean true)].

Definition srid_of (projection : Projection) : string :=
  Str.pop (Str.split ":" (getCode projection)).

Definition size_text (size : Size num) : string :=
  n_to_string (width size) +:+ "," +:+ n_to_string (height size).

Definition bbox_text (e : Extent num) : string :=
  Str.join "," (n_to_string <$> extent_elements e).

(** The working copy after the five assignments of lines 149-155. *)
Definition request_params (size : Size num) (e : Extent num) (pixelRatio : num)
    (projection : Projection) (base : obj num) : obj num :=
  let o := obj_set "IMAGESR" (VString (srid_of projection))
             (obj_set "BBOXSR" (VString (srid_of projection))
                (obj_set "BBOX" (VString (bbox_text e))
                   (obj_set "SIZE" (VString (size_text size)) base))) in
  obj_set "DPI" (VNumber (scaled_dpi (obj_get "DPI" o) pixelRatio)) o.

(** The query of the request built for [tileCoord] in state [s]. *)
Definition request_query (s : State num) (tileCoord : TileCoord) (pixelRatio : num)
    (projection : Projection) : obj num :=
  let grid := active_grid (this s) projection in
  request_params (tile_size grid tileCoord pixelRatio)
    (getTileCoordExtent grid tileCoord) pixelRatio projection
    (obj_assign default_params (stored s)).

(** The cache key is the one of the stored parameters. *)
Definition key_current (s : State num) : Prop :=
  key_ (this s) = cache_key (stored s).

(** [s'] is [s] but for the scratch extent and for objects allocated
    since: the configuration, the reference to the parameters, the cache
    key and every object of the heap of [s] are as they were. *)
Definition preserves (s s' : State num) : Prop :=
  urls (this s') = urls (this s) ∧ tileGrid (this s') = tileGrid (this s)
  ∧ params_ (this s') = params_ (this s) ∧ key_ (this s') = key_ (this s)
  ∧ ∀ r : ref, r < length (heap s) → heap s' !! r = heap s !! r.

(** One call of [fixedTileUrlFunction]. *)
Record call := Call {
  call_coord : TileCoord;
  call_ratio : num;
  call_projection : Projection
}.

(** A sequence of builds, one after the other, results dropped. *)
Fixpoint builds (calls : list call) : M num unit :=
  match calls with
  | [] => ret tt
  | c :: calls' =>
      fixedTileUrlFunction (call_coord c) (call_ratio c) (call_projection c) ;;
      builds calls'
  end.

(** The string form of the entries of a parameter set, which is all the
    cache key can see of it. *)
Definition entries (params : obj num) : list (string * string) :=
  (λ kv, (kv.1, ToString kv.2)) <$> params.

(** No key holds '-' or '/', and no value prints with a '/'. *)
Definition separator_free (params : obj num) : Prop :=
  Forall (λ kv, Str.contains "-" kv.1 = false ∧ Str.contains "/" kv.1 = false
                ∧ Str.contains "/" kv.2 = false) (entries params).

End Vocabulary.
Arguments call : clear implicits.

(** ** Vocabulary of the further properties *)

(** The keys that lines 149-155 assign. *)
Definition reserved_keys : list string :=
  ["SIZE"; "BBOX"; "BBOXSR"; "IMAGESR"; "DPI"].

Section Operations.
Context {num : Type} `{JsNumber num} `{Imports num}.

(** What a client does with a source: it builds the URL of a tile, or
    it updates the parameters with the object at [update]. *)
Inductive op :=
| Build (c : call num)
| Update (update : ref).

(** A sequence of operations, one after the other, results dropped. *)
Fixpoint run (ops : list op) : M num unit :=
  match ops with
  | [] => ret tt
  | Build c :: ops' =>
      fixedTileUrlFunction (call_coord c) (call_ratio c) (call_projection c) ;;
      run ops'
  | Update update :: ops' =>
      updateParams update ;;
      run ops'
  end.

End Operations.
Arguments op : clear implicits.

(** * Proofs *)

(** ** Strings: appending, suffixes and separators *)

Lemma str_app_nil_l (s : string) : "" +:+ s = s.
Proof. reflexivity. Qed.

Lemma str_app_cons (c : ascii) (s t : string) :
  String c s +:+ t = String c (s +:+ t).
Proof. reflexivity. Qed.

Lemma str_app_nil_r (s : string) : s +:+ "" = s.
Proof.
  induction s as [|c s IH]; [done|]. by rewrite str_app_cons, IH.
Qed.

Lemma str_app_assoc (a b c : string) : (a +:+ b) +:+ c = a +:+ (b +:+ c).
Proof.
  induction a as [|x a IH]; [done|]. by rewrite !str_app_cons, IH.
Qed.

Lemma str_app_length (a b : string) :
  String.length (a +:+ b) = (String.length a + String.length b)%nat.
Proof.
  induction a as [|x a IH]; [done|]. rewrite str_app_cons. simpl. by rewrite IH.
Qed.

Lemma str_app_eq_r (p s : string) : p +:+ s = s → p = "".
Proof.
  intros E. apply (f_equal String.length) in E. rewrite str_app_length in E.
  destruct p; [done | simpl in E; lia].
Qed.

Lemma strip_suffix_unfold (suf s : string) :
  Str.strip_suffix suf s =
  if String.eqb s suf then Some ""
  else match s with
       | "" => None
       | String c s' => String c <$> Str.strip_suffix suf s'
       end.
Proof. by destruct s. Qed.

Lemma strip_suffix_app (suf p : string) :
  Str.strip_suffix suf (p +:+ suf) = Some p.
Proof.
  induction p as [|c p IH]; rewrite strip_suffix_unfold.
  - by rewrite str_app_nil_l, String.eqb_refl.
  - rewrite str_app_cons.
    destruct (String.eqb_spec (String c (p +:+ suf)) suf) as [E|_].
    + by apply (str_app_eq_r (String c p)) in E.
    + by rewrite IH.
Qed.

Lemma strip_suffix_Some (suf s p : string) :
  Str.strip_suffix suf s = Some p → s = p +:+ suf.
Proof.
  revert p. induction s as [|c s IH]; intros p; rewrite strip_suffix_unfold.
  - destruct (String.eqb_spec "" suf) as [E|_]; [|done]. by intros [= <-].
  - destruct (String.eqb_spec (String c s) suf) as [E|_].
    + by intros [= <-].
    + destruct (Str.strip_suffix suf s) as [q|]; [|done].
      intros [= <-]. rewrite str_app_cons. f_equal. by apply IH.
Qed.

Lemma strip_suffix_None (suf s : string) :
  Str.strip_suffix suf s = None ↔ ∀ p, s ≠ p +:+ suf.
Proof.
  split.
  - intros E p ->. by rewrite strip_suffix_app in E.
  - intros N. destruct (Str.strip_suffix suf s) as [p|] eqn:E; [|done].
    apply strip_suffix_Some in E. by destruct (N p).
Qed.

(** ** Objects: reading after writing *)

Section ObjectFacts.
Context {num : Type}.
Implicit Types (o : obj num) (v : value num) (key : string).

Lemma obj_get_set_eq key v o : obj_get key (obj_set key v o) = Some v.
Proof.
  induction o as [|[k w] o IH]; simpl.
  - by rewrite String.eqb_refl.
  - destruct (String.eqb_spec k key) as [->|Hk]; simpl.
    + by rewrite String.eqb_refl.
    + destruct (enumerated_before key k); simpl.
      * by rewrite String.eqb_refl.
      * by destruct (String.eqb_spec k key).
Qed.

Lemma obj_get_set_ne key key' v o :
  key ≠ key' → obj_get key' (obj_set key v o) = obj_get key' o.
Proof.
  intros Hne. induction o as [|[k w] o IH]; simpl.
  - by destruct (String.eqb_spec key key').
  - destruct (String.eqb_spec k key) as [->|Hk]; simpl.
    + by destruct (String.eqb_spec key key').
    + destruct (enumerated_before key k); simpl.
      * by destruct (String.eqb_spec key key').
      * by rewrite IH.
Qed.

Lemma obj_get_set key key' v o :
  obj_get key' (obj_set key v o) =
  if String.eqb key key' then Some v else obj_get key' o.
Proof.
  destruct (String.eqb_spec key key') as [<-|Hne].
  - apply obj_get_set_eq.
  - by apply obj_get_set_ne.
Qed.

Lemma obj_get_None key o : key ∉ o.*1 → obj_get key o = None.
Proof.
  induction o as [|[k w] o IH]; simpl; [done|].
  rewrite not_elem_of_cons. intros [Hk Ho].
  destruct (String.eqb_spec k key); [done | by apply IH].
Qed.

(** [Object.assign] is the shallow merge: a key of the source gets the
    value of the source, any other key keeps the value of the target. *)
Lemma obj_get_assign key (target source : obj num) :
  obj_wf source →
  obj_get key (obj_assign target source) =
  match obj_get key source with
  | Some v => Some v
  | None => obj_get key target
  end.
Proof.
  intros [Hwf _]. unfold obj_assign. revert target.
  induction source as [|[k w] source IH]; intros target; simpl; [done|].
  rewrite fmap_cons in Hwf. apply NoDup_cons in Hwf as [Hk Hwf].
  simpl in Hk. rewrite IH by done.
  destruct (String.eqb_spec k key) as [->|Hne].
  - by rewrite (obj_get_None _ _ Hk), obj_get_set_eq.
  - by rewrite obj_get_set_ne.
Qed.

Lemma obj_get_Some key v o : obj_get key o = Some v → (key, v) ∈ o.
Proof.
  induction o as [|[k w] o IH]; simpl; [done|].
  destruct (String.eqb_spec k key) as [->|_].
  - intros [= ->]. apply list_elem_of_here.
  - intros E. apply list_elem_of_further. by apply IH.
Qed.

(** *** Writing keeps an object well formed *)

Lemma obj_set_keys key v o k :
  k ∈ (obj_set key v o).*1 ↔ k = key ∨ k ∈ o.*1.
Proof.
  induction o as [|[k' w] o IH]; simpl.
  - rewrite list_elem_of_singleton, elem_of_nil. tauto.
  - destruct (String.eqb_spec k' key) as [->|Hk]; simpl.
    + rewrite !elem_of_cons. tauto.
    + destruct (enumerated_before key k'); simpl.
      * rewrite !elem_of_cons. tauto.
      * rewrite !elem_of_cons, IH. tauto.
Qed.

(** A key that goes before [k] also goes before whatever [k] does not
    precede. *)
Lemma enumerated_before_trans key k k' :
  enumerated_before key k = true → enumerated_before k' k = false →
  enumerated_before k' key = false.
Proof.
  unfold enumerated_before.
  destruct (array_index key) as [i|], (array_index k) as [j|],
    (array_index k') as [j'|]; try done.
  intros ?%N.ltb_lt ?%N.ltb_ge. apply N.ltb_ge. lia.
Qed.

Lemma enumerated_before_asym key k :
  enumerated_before key k = true → enumerated_before k key = false.
Proof.
  unfold enumerated_before.
  destruct (array_index key) as [i|], (array_index k) as [j|]; try done.
  intros ?%N.ltb_lt. apply N.ltb_ge. lia.
Qed.

Lemma obj_set_wf key v o : obj_wf o → obj_wf (obj_set key v o).
Proof.
  unfold obj_wf. induction o as [|[k w] o IH]; simpl.
  - intros _. split; [apply NoDup_singleton | by repeat constructor].
  - intros [Hnd Hs].
    apply NoDup_cons in Hnd as [Hk Hnd].
    apply StronglySorted_inv in Hs as [Hs Hall].
    destruct (String.eqb_spec k key) as [->|Hne]; simpl.
    { split; [by apply NoDup_cons | by constructor]. }
    rewrite Forall_forall in Hall.
    destruct (enumerated_before key k) eqn:Hb; simpl.
    + split.
      * apply NoDup_cons. split; [|by apply NoDup_cons].
        rewrite not_elem_of_cons. split; [done|].
        intros Hin%Hall. unfold key_order in Hin. congruence.
      * constructor; [by constructor; [|apply Forall_forall]|].
        constructor; [by apply enumerated_before_asym|].
        apply Forall_forall. intros k' Hin%Hall.
        by apply (enumerated_before_trans key k k').
    + destruct (IH (conj Hnd Hs)) as [Hnd' Hs']. split.
      * apply NoDup_cons. split; [|done].
        rewrite obj_set_keys. intros [->|?]; done.
      * constructor; [done|]. apply Forall_forall.
        intros k' [->|Hin]%obj_set_keys; [done | by apply Hall].
Qed.

Lemma obj_assign_wf (target source : obj num) :
  obj_wf target → obj_wf (obj_assign target source).
Proof.
  unfold obj_assign. revert target.
  induction source as [|[k w] source IH]; intros target Hwf; simpl; [done|].
  by apply IH, obj_set_wf.
Qed.

End ObjectFacts.

(** ** The heap *)

Section HeapFacts.
Context {num : Type}.
Implicit Types (h : list (obj num)) (o : obj num).

Lemma lookup_fresh h o : (h ++ [o]) !! length h = Some o.
Proof. by apply list_lookup_middle. Qed.

Lemma alter_fresh (f : obj num → obj num) h o :
  alter f (length h) (h ++ [o]) = h ++ [f o].
Proof.
  rewrite <- (Nat.add_0_r (length h)). by rewrite alter_app_r.
Qed.

Lemma lookup_old h o (r : ref) : r < length h → (h ++ [o]) !! r = h !! r.
Proof. apply lookup_app_l. Qed.

End HeapFacts.

(** ** What one build computes *)

Section BuildFacts.
Context {num : Type} `{JsNumber num} `{Imports num}.
Implicit Types (s : State num) (tileCoord : TileCoord) (pixelRatio : num)
  (projection : Projection).

(** The five assignments, run on the fresh working copy. *)
Lemma getRequestUrl_fresh tileCoord size e pixelRatio projection h self base :
  getRequestUrl_ tileCoord size e pixelRatio projection (length h)
    {| heap := h ++ [base]; this := self |} =
  match urls self with
  | None => (Return None, {| heap := h ++ [base]; this := self |})
  | Some us =>
      let query := request_params size e pixelRatio projection base in
      (match select_url us tileCoord with
       | None => Throw TypeError
       | Some url => Return (Some (appendParams (modify_url url) query))
       end,
       {| heap := h ++ [query]; this := self |})
  end.
Proof.
  unfold getRequestUrl_, bind, get_this, set_prop, get_prop, load, ret.
  cbn [this heap]. destruct (urls self) as [us|]; [|done].
  destruct (select_url us tileCoord); cbn [this heap];
    rewrite !alter_fresh, !lookup_fresh; reflexivity.
Qed.

(** One build, in closed form. *)
Lemma fixedTileUrlFunction_eq s tileCoord pixelRatio projection :
  params_ (this s) < length (heap s) →
  fixedTileUrlFunction tileCoord pixelRatio projection s =
  let grid := active_grid (this s) projection in
  if (Z.of_nat (length (getResolutions grid)) <=? tc_z tileCoord)%Z
  then (Return None, s)
  else
    let self' := with_tmpExtent (this s) (getTileCoordExtent grid tileCoord) in
    match urls (this s) with
    | None =>
        (Return None,
         {| heap := heap s ++ [obj_assign default_params (stored s)];
            this := self' |})
    | Some us =>
        let query := request_query s tileCoord pixelRatio projection in
        (match select_url us tileCoord with
         | None => Throw TypeError
         | Some url => Return (Some (appendParams (modify_url url) query))
         end,
         {| heap := heap s ++ [query]; this := self' |})
    end.
Proof.
  intros Hp. destruct s as [h self]. cbn [this heap] in *.
  unfold fixedTileUrlFunction, bind at 1. cbn [get_this this heap].
  fold (active_grid self projection).
  destruct (_ <=? _)%Z; [done|].
  cbv beta iota delta [bind getTileCoordExtent_into set_tmpExtent get_this
                         alloc assign ret this heap].
  change (tmpExtent_ (with_tmpExtent self ?e)) with e.
  rewrite alter_fresh, (lookup_old _ _ _ Hp).
  fold (tile_size (active_grid self projection) tileCoord pixelRatio).
  rewrite getRequestUrl_fresh. reflexivity.
Qed.

End BuildFacts.

(** ** The query of a request *)

Section QueryFacts.
Context {num : Type} `{JsNumber num} `{Imports num}.
Implicit Types (s : State num) (tileCoord : TileCoord) (pixelRatio : num)
  (projection : Projection) (base : obj num).

Lemma request_params_SIZE size e pixelRatio projection base :
  obj_get "SIZE" (request_params size e pixelRatio projection base)
  = Some (VString (size_text size)).
Proof. unfold request_params. by rewrite !obj_get_set. Qed.

Lemma request_params_BBOX size e pixelRatio projection base :
  obj_get "BBOX" (request_params size e pixelRatio projection base)
  = Some (VString (bbox_text e)).
Proof. unfold request_params. by rewrite !obj_get_set. Qed.

Lemma request_params_BBOXSR size e pixelRatio projection base :
  obj_get "BBOXSR" (request_params size e pixelRatio projection base)
  = Some (VString (srid_of projection)).
Proof. unfold request_params. by rewrite !obj_get_set. Qed.

Lemma request_params_IMAGESR size e pixelRatio projection base :
  obj_get "IMAGESR" (request_params size e pixelRatio projection base)
  = Some (VString (srid_of projection)).
Proof. unfold request_params. by rewrite !obj_get_set. Qed.

Lemma request_params_DPI size e pixelRatio projection base :
  obj_get "DPI" (request_params size e pixelRatio projection base)
  = Some (VNumber (scaled_dpi (obj_get "DPI" base) pixelRatio)).
Proof. unfold request_params. by rewrite !obj_get_set. Qed.

(** Every other parameter is passed on as it is. *)
Lemma request_params_other key size e pixelRatio projection base :
  key ∉ ["SIZE"; "BBOX"; "BBOXSR"; "IMAGESR"; "DPI"] →
  obj_get key (request_params size e pixelRatio projection base)
  = obj_get key base.
Proof.
  rewrite !not_elem_of_cons. intros (?&?&?&?&?&_).
  unfold request_params. by rewrite !obj_get_set_ne.
Qed.

Lemma request_params_wf size e pixelRatio projection base :
  obj_wf base → obj_wf (request_params size e pixelRatio projection base).
Proof. intros Hwf. unfold request_params. by repeat apply obj_set_wf. Qed.

Lemma default_params_wf : obj_wf (@default_params num).
Proof.
  split.
  - repeat (apply NoDup_cons; split;
            [rewrite ?not_elem_of_cons, ?elem_of_nil; by intuition|]).
    apply NoDup_nil_2.
  - by repeat constructor.
Qed.

Lemma stored_wf s : State_wf s → obj_wf (stored s).
Proof.
  intros [Hp Hall]. unfold stored.
  destruct (heap s !! params_ (this s)) as [o|] eqn:E; simpl.
  - by apply (Forall_lookup_1 _ _ _ _ Hall E).
  - split; constructor.
Qed.

Lemma request_query_wf s tileCoord pixelRatio projection :
  State_wf s → obj_wf (request_query s tileCoord pixelRatio projection).
Proof.
  intros Hwf. apply request_params_wf, obj_assign_wf, default_params_wf.
Qed.

(** The defaults have no DPI, so the DPI the builder reads is that of
    the user; a default is kept unless the user sets the key. *)
Lemma merged_DPI s : State_wf s →
  obj_get "DPI" (obj_assign default_params (stored s)) = obj_get "DPI" (stored s).
Proof.
  intros Hwf. rewrite obj_get_assign by by apply stored_wf.
  by destruct (obj_get "DPI" (stored s)).
Qed.

End QueryFacts.

(** ** What a build leaves untouched *)

Section FrameFacts.
Context {num : Type} `{JsNumber num} `{Imports num}.
Implicit Types (s : State num) (tileCoord : TileCoord) (pixelRatio : num)
  (projection : Projection).

Lemma preserves_refl s : preserves s s.
Proof. by repeat split. Qed.

Lemma preserves_length s s' : preserves s s' → length (heap s) ≤ length (heap s').
Proof.
  intros (_&_&_&_&Hh). destruct (heap s) as [|o h] eqn:E using rev_ind.
  - simpl. lia.
  - clear IHh. rewrite length_app in *. simpl in *.
    assert (Hr : length h < length h + 1) by lia.
    specialize (Hh _ Hr). rewrite lookup_fresh in Hh.
    apply lookup_lt_Some in Hh. lia.
Qed.

Lemma preserves_trans s1 s2 s3 :
  preserves s1 s2 → preserves s2 s3 → preserves s1 s3.
Proof.
  intros H12 H23. pose proof (preserves_length _ _ H12) as Hlen.
  destruct H12 as (?&?&?&?&Hh12), H23 as (?&?&?&?&Hh23).
  repeat split; try congruence.
  intros r Hr. rewrite Hh23 by lia. by apply Hh12.
Qed.

Lemma preserves_stored s s' : State_wf s → preserves s s' → stored s' = stored s.
Proof.
  intros [Hp _] (_&_&Hpar&_&Hh). unfold stored. by rewrite Hpar, Hh.
Qed.

Lemma preserves_snoc (h : list (obj num)) self e o :
  preserves {| heap := h; this := self |}
            {| heap := h ++ [o]; this := with_tmpExtent self e |}.
Proof. repeat split. intros r Hr. by apply lookup_old. Qed.

Lemma State_wf_snoc (h : list (obj num)) self e o :
  State_wf {| heap := h; this := self |} → obj_wf o →
  State_wf {| heap := h ++ [o]; this := with_tmpExtent self e |}.
Proof.
  intros [Hp Hall] Ho. split; simpl in *.
  - rewrite length_app. simpl. lia.
  - apply Forall_app. split; [done|]. constructor; [done | constructor].
Qed.

(** A build allocates its working copy and overwrites the scratch
    extent; it touches nothing else. *)
Lemma fixedTileUrlFunction_preserves s tileCoord pixelRatio projection :
  State_wf s →
  let s' := (fixedTileUrlFunction tileCoord pixelRatio projection s).2 in
  State_wf s' ∧ preserves s s'.
Proof.
  intros Hwf. pose proof Hwf as [Hp _].
  rewrite fixedTileUrlFunction_eq by done. cbv zeta.
  destruct (_ <=? _)%Z; [by split; [|apply preserves_refl]|].
  pose proof (request_query_wf s tileCoord pixelRatio projection Hwf) as Hq.
  pose proof (stored_wf s Hwf) as Hs.
  destruct s as [h self]. cbn [this heap] in *.
  destruct (urls self) as [us|]; cbn [snd].
  - split; [by apply State_wf_snoc | apply preserves_snoc].
  - split; [|apply preserves_snoc].
    apply State_wf_snoc; [done|]. apply obj_assign_wf, default_params_wf.
Qed.

Lemma builds_preserves (calls : list (call num)) s :
  State_wf s →
  let s' := (builds calls s).2 in State_wf s' ∧ preserves s s'.
Proof.
  revert s. induction calls as [|c calls IH]; intros s Hwf; simpl.
  - split; [done | apply preserves_refl].
  - unfold bind.
    pose proof (fixedTileUrlFunction_preserves s (call_coord c) (call_ratio c)
                  (call_projection c) Hwf) as [Hwf1 Hp1].
    destruct (fixedTileUrlFunction _ _ _ s) as [r s1]. simpl in *.
    destruct (IH s1 Hwf1) as [Hwf2 Hp2].
    split; [done | by eapply preserves_trans].
Qed.

End FrameFacts.

(** ** Selecting the URL *)

Section SelectFacts.
Context {num : Type} `{Imports num}.
Implicit Types (us : list string) (tileCoord : TileCoord).

Lemma select_url_single url tileCoord : select_url [url] tileCoord = Some url.
Proof. reflexivity. Qed.

Lemma select_url_empty tileCoord : select_url [] tileCoord = None.
Proof. reflexivity. Qed.

(** With several URLs the index is the hash modulo their number, which
    always lies in the list. *)
Lemma select_url_many us tileCoord :
  1 < length us →
  select_url us tileCoord
  = us !! Z.to_nat (tileCoordHash tileCoord `mod` Z.of_nat (length us))
  ∧ is_Some (select_url us tileCoord).
Proof.
  intros Hlen. unfold select_url, modulo, array_get.
  destruct (Nat.eqb_spec (length us) 1) as [|_]; [lia|].
  destruct (Z.eqb_spec (Z.of_nat (length us)) 0) as [|_]; [lia|].
  pose proof (Z.mod_pos_bound (tileCoordHash tileCoord) (Z.of_nat (length us)))
    as Hb.
  destruct (Z.ltb_spec (tileCoordHash tileCoord `mod` Z.of_nat (length us)) 0)
    as [|_]; [lia|].
  split; [done|]. apply lookup_lt_is_Some. lia.
Qed.

Lemma select_url_nonempty us tileCoord :
  us ≠ [] → is_Some (select_url us tileCoord).
Proof.
  destruct us as [|u [|u' us]]; [done | by eexists |].
  intros _. apply select_url_many. simpl. lia.
Qed.

Lemma select_url_elem (us : list string) tileCoord (url : string) :
  select_url us tileCoord = Some url → url ∈ us.
Proof.
  unfold select_url, array_get.
  destruct (length us =? 1)%nat; [by apply list_elem_of_lookup_2|].
  destruct (modulo _ _) as [i|]; [|done].
  destruct (i <? 0)%Z; [done | by apply list_elem_of_lookup_2].
Qed.

Lemma select_url_None (us : list string) tileCoord :
  select_url us tileCoord = None → us = [].
Proof.
  intros E. destruct us as [|u us]; [done|].
  destruct (select_url_nonempty (u :: us) tileCoord) as [url Hu]; [done|].
  congruence.
Qed.

End SelectFacts.

(** ** Splitting and joining *)

Lemma join_cons (sep a : string) (l : list string) :
  Str.join sep (a :: l)
  = a +:+ match l with [] => "" | _ :: _ => sep +:+ Str.join sep l end.
Proof. destruct l; simpl; [by rewrite str_app_nil_r | done]. Qed.

Lemma join_snoc (sep a : string) (l : list string) :
  l ≠ [] → Str.join sep (l ++ [a]) = Str.join sep l +:+ sep +:+ a.
Proof.
  induction l as [|b l IH]; [done|]. intros _.
  rewrite <- app_comm_cons, !join_cons. destruct l as [|c l].
  - by rewrite str_app_nil_r.
  - rewrite <- app_comm_cons, app_comm_cons, IH by done.
    by rewrite !str_app_assoc.
Qed.

Lemma split_not_nil (sep : ascii) (s : string) : Str.split sep s ≠ [].
Proof.
  destruct s as [|c s]; simpl; [done|].
  destruct (Ascii.eqb c sep); [done|]. by destruct (Str.split sep s).
Qed.

(** The pieces hold no separator, and joining them gives the string
    back. *)
Lemma split_sep_free (sep : ascii) (s : string) :
  Forall (λ p, Str.contains sep p = false) (Str.split sep s).
Proof.
  induction s as [|c s IH]; simpl; [by repeat constructor|].
  pose proof (split_not_nil sep s) as Hne.
  destruct (Ascii.eqb_spec c sep) as [->|Hc]; [by constructor|].
  destruct (Str.split sep s) as [|p ps]; [done|].
  apply Forall_cons in IH as [Hp Hps]. constructor; [|done]. simpl.
  rewrite Hp. by destruct (Ascii.eqb_spec c sep).
Qed.

Lemma split_join (sep : ascii) (s : string) :
  Str.join (String sep "") (Str.split sep s) = s.
Proof.
  induction s as [|c s IH]; simpl; [done|].
  pose proof (split_not_nil sep s) as Hne.
  destruct (Ascii.eqb_spec c sep) as [->|Hc].
  - rewrite join_cons. destruct (Str.split sep s); [done|]. by rewrite IH.
  - destruct (Str.split sep s) as [|p ps]; [done|].
    rewrite join_cons in *. rewrite str_app_cons. by rewrite IH.
Qed.

(** [split(sep).pop()] is what follows the last separator: it holds no
    separator, and the string is either it alone or something, the
    separator, and it. *)
Lemma pop_split (sep : ascii) (s : string) :
  let r := Str.pop (Str.split sep s) in
  Str.contains sep r = false
  ∧ (s = r ∨ ∃ before, s = before +:+ String sep r).
Proof.
  cbv zeta. unfold Str.pop.
  pose proof (split_not_nil sep s) as Hne.
  pose proof (split_sep_free sep s) as Hfree.
  pose proof (split_join sep s) as Hjoin.
  destruct (Str.split sep s) as [|p ps] using rev_ind; [done|]. clear IHps.
  rewrite last_last. apply Forall_app in Hfree as [_ Hp].
  apply Forall_cons in Hp as [Hp _]. split; [done|].
  destruct (decide (ps = [])) as [->|Hps].
  - left. by rewrite <- Hjoin.
  - right. exists (Str.join (String sep "") ps).
    by rewrite <- Hjoin, join_snoc.
Qed.

(** ** Reading a joined string back *)

Lemma contains_app (c : ascii) (a b : string) :
  Str.contains c (a +:+ b) = Str.contains c a || Str.contains c b.
Proof.
  induction a as [|x a IH]; [done|].
  rewrite str_app_cons. simpl. rewrite IH. by destruct (Ascii.eqb x c).
Qed.

(** A string free of [c], followed by nothing or by [c] and more, can
    be cut in one way only. *)
Lemma cut_at_separator (c : ascii) (a a' r r' : string) :
  Str.contains c a = false → Str.contains c a' = false →
  (r = "" ∨ ∃ t, r = String c t) → (r' = "" ∨ ∃ t, r' = String c t) →
  a +:+ r = a' +:+ r' → a = a' ∧ r = r'.
Proof.
  revert a'. induction a as [|x a IH]; intros [|x' a'] Ha Ha' Hr Hr';
    rewrite ?str_app_nil_l, ?str_app_cons; intros E.
  - done.
  - destruct Hr as [->|[t ->]]; [done|]. injection E as <- _.
    simpl in Ha'. by rewrite Ascii.eqb_refl in Ha'.
  - destruct Hr' as [->|[t ->]]; [done|]. injection E as -> _.
    simpl in Ha. by rewrite Ascii.eqb_refl in Ha.
  - injection E as -> E. simpl in Ha, Ha'.
    apply orb_false_elim in Ha as [_ Ha], Ha' as [_ Ha'].
    destruct (IH a' Ha Ha' Hr Hr' E) as [-> ->]. done.
Qed.

(** Joining with [c] is injective on non-empty pieces free of [c]. *)
Lemma join_inj (c : ascii) (l1 l2 : list string) :
  Forall (λ p, Str.contains c p = false ∧ p ≠ "") l1 →
  Forall (λ p, Str.contains c p = false ∧ p ≠ "") l2 →
  Str.join (String c "") l1 = Str.join (String c "") l2 → l1 = l2.
Proof.
  revert l2. induction l1 as [|a l1 IH]; intros [|a' l2] H1 H2.
  - done.
  - apply Forall_cons in H2 as [[_ Hne] _]. rewrite join_cons.
    intros E. destruct a'; [done|]. by rewrite str_app_cons in E.
  - apply Forall_cons in H1 as [[_ Hne] _]. rewrite join_cons.
    intros E. destruct a; [done|]. by rewrite str_app_cons in E.
  - apply Forall_cons in H1 as [[Ha _] H1], H2 as [[Ha' _] H2].
    rewrite !join_cons. intros E.
    apply (cut_at_separator c) in E as [-> E]; [|done|done|..].
    + f_equal. destruct l1, l2; try done.
      apply IH; [done..|]. by injection E.
    + destruct l1; [by left | right; by eexists].
    + destruct l2; [by left | right; by eexists].
Qed.

Section KeyFacts.
Context {num : Type} `{JsNumber num}.
Implicit Types (params : obj num).

Lemma cache_key_entries params :
  cache_key params = Str.join "/" ((λ e, e.1 +:+ "-" +:+ e.2) <$> entries params).
Proof.
  unfold cache_key, entries. by rewrite <- list_fmap_compose.
Qed.

Lemma cache_key_nil : cache_key (@nil (string * value num)) = "".
Proof. reflexivity. Qed.

(** On separator-free parameters the cache key determines the entries. *)
Lemma cache_key_inj params params' :
  separator_free params → separator_free params' →
  cache_key params = cache_key params' → entries params = entries params'.
Proof.
  unfold separator_free. rewrite !cache_key_entries.
  generalize (entries params) (entries params'). clear params params'.
  intros l1 l2 H1 H2 E. apply (join_inj "/") in E.
  - revert l2 H2 E.
    induction l1 as [|[k v] l1 IH]; intros [|[k' v'] l2] H2 E; try done.
    apply Forall_cons in H1 as [(Hk&_&_) H1], H2 as [(Hk'&_&_) H2].
    rewrite !fmap_cons in E. injection E as E1 E. simpl in *.
    apply (cut_at_separator "-") in E1 as [-> E1]; [|done|done|right..].
    + apply String.app_inj in E1 as ->. f_equal. by apply IH.
    + by eexists.
    + by eexists.
  - apply Forall_fmap. eapply Forall_impl; [exact H1|].
    intros [k v] (Hk&Hk'&Hv). simpl in *. split.
    + rewrite contains_app, Hk'. by change ("-" +:+ v) with (String "-" v).
    + destruct k; [|done]. by rewrite str_app_nil_l.
  - apply Forall_fmap. eapply Forall_impl; [exact H2|].
    intros [k v] (Hk&Hk'&Hv). simpl in *. split.
    + rewrite contains_app, Hk'. by change ("-" +:+ v) with (String "-" v).
    + destruct k; [|done]. by rewrite str_app_nil_l.
Qed.

(** An entry that is in the parameters shows in the cache key. *)
Lemma join_contains (sep x : string) (l : list string) :
  x ∈ l → ∃ a b, Str.join sep l = a +:+ x +:+ b.
Proof.
  induction l as [|y l IH]; [by intros ?%elem_of_nil|].
  rewrite join_cons. intros [->|Hin]%elem_of_cons.
  - exists "". by eexists.
  - destruct (IH Hin) as (a&b&E). destruct l as [|z l]; [by apply elem_of_nil in Hin|].
    rewrite E. exists (y +:+ sep +:+ a), b. by rewrite !str_app_assoc.
Qed.

Lemma cache_key_contains key v params :
  obj_get key params = Some v →
  ∃ a b, cache_key params = a +:+ (key +:+ "-" +:+ ToString v) +:+ b.
Proof.
  intros Hin%obj_get_Some. apply join_contains.
  apply (list_elem_of_fmap_2 (λ kv, kv.1 +:+ "-" +:+ ToString kv.2) _ _ Hin).
Qed.

(** A parameter of the query shows in the URL as key, '=', and the
    encoded string form of its value. *)
Lemma appendParams_carries (root key : string) v params :
  obj_get key params = Some v →
  ∃ a b, appendParams root params
         = a +:+ (key +:+ "=" +:+ Str.encodeURIComponent (ToString v)) +:+ b.
Proof.
  intros Hin%obj_get_Some. unfold appendParams.
  destruct (join_contains "&" (query_entry (key, v)) (query_entry <$> params))
    as (a&b&->); [exact (list_elem_of_fmap_2 query_entry _ _ Hin)|].
  unfold query_entry. cbn [fst snd]. destruct (Str.contains "?" root).
  - exists (root +:+ "&" +:+ a), b. by rewrite !str_app_assoc.
  - exists (root +:+ "?" +:+ a), b. by rewrite !str_app_assoc.
Qed.

End KeyFacts.

(** ** Updating the parameters *)

Section UpdateFacts.
Context {num : Type} `{JsNumber num} `{Imports num}.
Implicit Types (s : State num).

Lemma updateParams_eq s (params : ref) :
  updateParams params s =
  let heap' := alter (λ t, obj_assign t (default [] (heap s !! params)))
                     (params_ (this s)) (heap s) in
  (tt, {| heap := heap';
          this := with_key (this s)
                    (cache_key (default [] (heap' !! params_ (this s)))) |}).
Proof. reflexivity. Qed.

(** After [updateParams] the stored parameters are the merge and the
    key is their cache key. *)
Lemma updateParams_spec s (params : ref) :
  State_wf s →
  let s' := (updateParams params s).2 in
  stored s' = obj_assign (stored s) (default [] (heap s !! params))
  ∧ key_ (this s') = cache_key (stored s')
  ∧ State_wf s'.
Proof.
  intros [Hp Hall]. rewrite updateParams_eq. cbv zeta. cbn [snd].
  unfold stored, State_wf. cbn [this heap params_ key_ with_key].
  rewrite list_lookup_alter_eq, length_alter.
  destruct (lookup_lt_is_Some_2 _ _ Hp) as [o Ho]. rewrite Ho. cbn.
  repeat split; [done|].
  apply Forall_alter; [done|]. intros o' Ho'. by apply obj_assign_wf.
Qed.

End UpdateFacts.

(** ** The constructor *)

Section ConstructorFacts.
Context {num : Type} `{JsNumber num} `{Imports num}.

(** A new source is well formed, provided the parameters it is given
    are an object of the heap, and its cache key is that of its
    parameters. *)
Lemma TileArcGISRest_wf (options : Options) (h : list (obj num)) :
  Forall obj_wf h →
  (∀ r, opt_params options = Some r → r < length h) →
  State_wf (TileArcGISRest options h) ∧ key_current (TileArcGISRest options h).
Proof.
  intros Hall Hr. unfold TileArcGISRest, State_wf, key_current, stored.
  destruct (opt_params options) as [r|]; cbn.
  - split; [split; [by apply Hr | done] | done].
  - split; [split|done].
    + rewrite length_app. simpl. lia.
    + apply Forall_app. split; [done|]. constructor; [|constructor].
      split; constructor.
Qed.

Lemma updateParams_key_current (s : State num) (params : ref) :
  State_wf s → key_current (updateParams params s).2.
Proof. intros Hwf. apply (updateParams_spec s params Hwf). Qed.

Lemma builds_key_current (calls : list (call num)) (s : State num) :
  State_wf s → key_current s → key_current (builds calls s).2.
Proof.
  intros Hwf Hk. destruct (builds_preserves calls s Hwf) as [_ Hp].
  unfold key_current. rewrite (preserves_stored _ _ Hwf Hp).
  destruct Hp as (_&_&_&->&_). exact Hk.
Qed.

End ConstructorFacts.

(** ** The example states *)

Lemma source_in_wf (us : option (list string)) (h : list (obj Run.jsint)) :
  h ≠ [] → Forall obj_wf h → State_wf (Run.source_in us h).
Proof.
  intros Hne Hall. apply TileArcGISRest_wf; [done|].
  intros r [= <-]. destruct h; [done | simpl; lia].
Qed.

Lemma source_wf (us : option (list string)) (params : obj Run.jsint) :
  obj_wf params → State_wf (Run.source us params).
Proof.
  intros Hwf. apply source_in_wf; [done|]. constructor; [done | constructor].
Qed.

Ltac not_reserved := apply (bool_decide_unpack _); vm_compute; exact I.

Ltac obj_wf_by_computation :=
  split; [apply (bool_decide_unpack _); vm_compute; exact I
         | repeat constructor].

(** ** Rewriting the service URL *)

Lemma str_app_inj_length (p q a b : string) :
  String.length a = String.length b → p +:+ a = q +:+ b → p = q ∧ a = b.
Proof.
  intros Hlen. revert q.
  induction p as [|c p IH]; intros [|d q];
    rewrite ?str_app_nil_l, ?str_app_cons; intros E.
  - done.
  - apply (f_equal String.length) in E. simpl in E.
    rewrite str_app_length in E. lia.
  - apply (f_equal String.length) in E. simpl in E.
    rewrite str_app_length in E. lia.
  - injection E as -> E. by destruct (IH q E) as [-> ->].
Qed.

(** Two strings whose last characters differ are different. *)
Lemma suffix_clash (p q a1 a2 b1 b2 : string) :
  String.length a2 = String.length b2 → a2 ≠ b2 →
  p +:+ (a1 +:+ a2) ≠ q +:+ (b1 +:+ b2).
Proof.
  intros Hlen Hne E. rewrite <- !str_app_assoc in E.
  by apply str_app_inj_length in E as [_ ?].
Qed.

Lemma strip_suffix_clash (p a1 a2 b1 b2 : string) :
  String.length a2 = String.length b2 → a2 ≠ b2 →
  Str.strip_suffix (b1 +:+ b2) (p +:+ (a1 +:+ a2)) = None.
Proof.
  intros Hlen Hne. apply strip_suffix_None. intros q.
  by apply suffix_clash.
Qed.

(** The effect of the two replacements on each of the four endings. *)
Lemma modify_url_MapServer (p : string) :
  modify_url (p +:+ "MapServer") = p +:+ "MapServer/export".
Proof.
  unfold modify_url, Str.replace_at_end.
  assert (Str.strip_suffix ("MapServer" +:+ "/") (p +:+ "MapServer") = None) as ->
    by exact (strip_suffix_clash p "MapServe" "r" "MapServer" "/" eq_refl ltac:(done)).
  rewrite strip_suffix_app.
  assert (Str.strip_suffix ("ImageServer" +:+ "/") (p +:+ "MapServer/export") = None) as ->
    by exact (strip_suffix_clash p "MapServer/expor" "t" "ImageServer" "/" eq_refl ltac:(done)).
  assert (Str.strip_suffix "ImageServer" (p +:+ "MapServer/export") = None) as ->
    by exact (strip_suffix_clash p "MapServer/expor" "t" "ImageServe" "r" eq_refl ltac:(done)).
  done.
Qed.

Lemma modify_url_MapServer_slash (p : string) :
  modify_url (p +:+ "MapServer/") = p +:+ "MapServer/export".
Proof.
  unfold modify_url, Str.replace_at_end.
  change (p +:+ "MapServer/") with (p +:+ ("MapServer" +:+ "/")).
  rewrite strip_suffix_app.
  assert (Str.strip_suffix ("ImageServer" +:+ "/") (p +:+ "MapServer/export") = None) as ->
    by exact (strip_suffix_clash p "MapServer/expor" "t" "ImageServer" "/" eq_refl ltac:(done)).
  assert (Str.strip_suffix "ImageServer" (p +:+ "MapServer/export") = None) as ->
    by exact (strip_suffix_clash p "MapServer/expor" "t" "ImageServe" "r" eq_refl ltac:(done)).
  done.
Qed.

Lemma modify_url_ImageServer (p : string) :
  modify_url (p +:+ "ImageServer") = p +:+ "ImageServer/exportImage".
Proof.
  unfold modify_url, Str.replace_at_end.
  assert (Str.strip_suffix ("MapServer" +:+ "/") (p +:+ "ImageServer") = None) as ->
    by exact (strip_suffix_clash p "ImageServe" "r" "MapServer" "/" eq_refl ltac:(done)).
  assert (Str.strip_suffix "MapServer" (p +:+ "ImageServer") = None) as ->
    by exact (strip_suffix_clash p "Im" "ageServer" "" "MapServer" eq_refl ltac:(done)).
  assert (Str.strip_suffix ("ImageServer" +:+ "/") (p +:+ "ImageServer") = None) as ->
    by exact (strip_suffix_clash p "ImageServe" "r" "ImageServer" "/" eq_refl ltac:(done)).
  by rewrite strip_suffix_app.
Qed.

Lemma modify_url_ImageServer_slash (p : string) :
  modify_url (p +:+ "ImageServer/") = p +:+ "ImageServer/exportImage".
Proof.
  unfold modify_url, Str.replace_at_end.
  assert (Str.strip_suffix ("MapServer" +:+ "/") (p +:+ "ImageServer/") = None) as ->
    by exact (strip_suffix_clash p "Im" "ageServer/" "" "MapServer/" eq_refl ltac:(done)).
  assert (Str.strip_suffix "MapServer" (p +:+ "ImageServer/") = None) as ->
    by exact (strip_suffix_clash p "ImageServer" "/" "MapServe" "r" eq_refl ltac:(done)).
  change (p +:+ "ImageServer/") with (p +:+ ("ImageServer" +:+ "/")).
  by rewrite strip_suffix_app.
Qed.

(** C7.  The rewrite step maps a URL ending in MapServer, with or
    without one trailing slash, to the same URL ending in
    MapServer/export; a URL ending in ImageServer, with or without one
    trailing slash, to the same URL ending in ImageServer/exportImage;
    and returns any other URL as it is.  It is a total function: no
    input makes it fail. *)
Theorem C7_service_url_rewrite (p url : string) :
  modify_url (p +:+ "MapServer") = p +:+ "MapServer/export"
  ∧ modify_url (p +:+ "MapServer/") = p +:+ "MapServer/export"
  ∧ modify_url (p +:+ "ImageServer") = p +:+ "ImageServer/exportImage"
  ∧ modify_url (p +:+ "ImageServer/") = p +:+ "ImageServer/exportImage"
  ∧ ((∀ q, url ≠ q +:+ "MapServer" ∧ url ≠ q +:+ "MapServer/"
           ∧ url ≠ q +:+ "ImageServer" ∧ url ≠ q +:+ "ImageServer/")
     → modify_url url = url).
Proof.
  split; [apply modify_url_MapServer|].
  split; [apply modify_url_MapServer_slash|].
  split; [apply modify_url_ImageServer|].
  split; [apply modify_url_ImageServer_slash|].
  intros Hno. unfold modify_url, Str.replace_at_end.
  assert (Str.strip_suffix ("MapServer" +:+ "/") url = None) as ->
    by (apply strip_suffix_None; intros q; apply (Hno q)).
  assert (Str.strip_suffix "MapServer" url = None) as ->
    by (apply strip_suffix_None; intros q; apply (Hno q)).
  assert (Str.strip_suffix ("ImageServer" +:+ "/") url = None) as ->
    by (apply strip_suffix_None; intros q; apply (Hno q)).
  assert (Str.strip_suffix "ImageServer" url = None) as ->
    by (apply strip_suffix_None; intros q; apply (Hno q)).
  done.
Qed.

(** The URLs of the specification's examples, and one that is already
    rewritten. *)
Lemma C7_service_url_rewrite_examples :
  modify_url "https://host/arcgis/rest/services/X/MapServer"
  = "https://host/arcgis/rest/services/X/MapServer/export"
  ∧ modify_url "https://host/arcgis/rest/services/X/ImageServer/"
    = "https://host/arcgis/rest/services/X/ImageServer/exportImage"
  ∧ modify_url "https://host/arcgis/rest/services/X/MapServer/export"
    = "https://host/arcgis/rest/services/X/MapServer/export".
Proof.
  pose proof (C7_service_url_rewrite "https://host/arcgis/rest/services/X/"
    "https://host/arcgis/rest/services/X/MapServer/export") as (E1&_&_&E2&E3).
  split; [exact E1|]. split; [exact E2|]. apply E3.
  intros q. repeat split.
  - exact (suffix_clash "https://host/arcgis/rest/services/X/" q
             "MapServer/expor" "t" "MapServe" "r" eq_refl ltac:(done)).
  - exact (suffix_clash "https://host/arcgis/rest/services/X/" q
             "MapServer/expor" "t" "MapServer" "/" eq_refl ltac:(done)).
  - exact (suffix_clash "https://host/arcgis/rest/services/X/" q
             "MapServer/expor" "t" "ImageServe" "r" eq_refl ltac:(done)).
  - exact (suffix_clash "https://host/arcgis/rest/services/X/" q
             "MapServer/expor" "t" "ImageServer" "/" eq_refl ltac:(done)).
Defined.

(** ** The result of a build *)

Section ResultFacts.
Context {num : Type} `{JsNumber num} `{Imports num}.
Implicit Types (s : State num) (tileCoord : TileCoord) (pixelRatio : num)
  (projection : Projection).

Lemma zoom_covered_spec (grid : TileGrid num) tileCoord :
  (Z.of_nat (length (getResolutions grid)) <=? tc_z tileCoord)%Z = false
  ↔ zoom_covered grid tileCoord.
Proof. unfold zoom_covered. rewrite Z.leb_gt. done. Qed.

(** What a build returns, case by case. *)
Lemma fixedTileUrlFunction_result s tileCoord pixelRatio projection :
  State_wf s →
  (fixedTileUrlFunction tileCoord pixelRatio projection s).1 =
  if (Z.of_nat (length (getResolutions (active_grid (this s) projection)))
      <=? tc_z tileCoord)%Z
  then Return None
  else match urls (this s) with
       | None => Return None
       | Some us =>
           match select_url us tileCoord with
           | None => Throw TypeError
           | Some url =>
               Return (Some (appendParams (modify_url url)
                               (request_query s tileCoord pixelRatio projection)))
           end
       end.
Proof.
  intros [Hp _]. rewrite fixedTileUrlFunction_eq by done. cbv zeta.
  destruct (_ <=? _)%Z; [done|]. by destruct (urls (this s)).
Qed.

(** A build that returns a URL selected it from a configured list, for a
    zoom level the grid covers, and appended the query to it. *)
Lemma fixedTileUrlFunction_url s tileCoord pixelRatio projection u :
  State_wf s →
  (fixedTileUrlFunction tileCoord pixelRatio projection s).1 = Return (Some u) →
  ∃ us url,
    urls (this s) = Some us ∧ select_url us tileCoord = Some url
    ∧ zoom_covered (active_grid (this s) projection) tileCoord
    ∧ u = appendParams (modify_url url)
            (request_query s tileCoord pixelRatio projection).
Proof.
  intros Hwf. rewrite fixedTileUrlFunction_result by done.
  destruct (_ <=? _)%Z eqn:Hz; [done|]. apply zoom_covered_spec in Hz.
  destruct (urls (this s)) as [us|]; [|done].
  destruct (select_url us tileCoord) as [url|] eqn:Hsel; [|done].
  intros [= <-]. by exists us, url.
Qed.

(** Undefined is returned exactly when no URL list is configured or the
    grid does not cover the zoom level, provided the list is not empty;
    if it is not returned, a URL is. *)
Lemma fixedTileUrlFunction_undefined s tileCoord pixelRatio projection :
  State_wf s → urls (this s) ≠ Some [] →
  let r := (fixedTileUrlFunction tileCoord pixelRatio projection s).1 in
  (r = Return None
   ↔ urls (this s) = None
     ∨ ¬ zoom_covered (active_grid (this s) projection) tileCoord)
  ∧ (r = Return None ∨ ∃ u, r = Return (Some u)).
Proof.
  intros Hwf Hne. cbv zeta. rewrite fixedTileUrlFunction_result by done.
  rewrite <- zoom_covered_spec.
  destruct (_ <=? _)%Z.
  { split; [|by left]. split; [by right | done]. }
  destruct (urls (this s)) as [us|].
  - destruct (select_url_nonempty us tileCoord) as [url ->]; [congruence|].
    split; [|by eauto]. split; [done|]. by intros [|[]].
  - split; [|by left]. split; [by left | done].
Qed.

(** With a URL list that is not empty and a zoom level the grid covers,
    a build returns a URL: the selected one of the configured URLs,
    rewritten, with the query appended. *)
Lemma fixedTileUrlFunction_builds s tileCoord pixelRatio projection us :
  State_wf s →
  urls (this s) = Some us → us ≠ [] →
  zoom_covered (active_grid (this s) projection) tileCoord →
  ∃ url,
    select_url us tileCoord = Some url ∧ url ∈ us
    ∧ (fixedTileUrlFunction tileCoord pixelRatio projection s).1
      = Return (Some (appendParams (modify_url url)
                        (request_query s tileCoord pixelRatio projection))).
Proof.
  intros Hwf Hurls Hne Hz%zoom_covered_spec.
  destruct (select_url_nonempty us tileCoord Hne) as [url Hsel].
  exists url. split; [done|]. split; [by apply (select_url_elem _ tileCoord)|].
  by rewrite fixedTileUrlFunction_result, Hz, Hurls, Hsel.
Qed.

End ResultFacts.

(** ** The reserved parameters (C1, C4, C5) *)

Section ReservedParameters.
Context {num : Type} `{JsNumber num} `{Imports num}.
Implicit Types (s : State num) (tileCoord : TileCoord) (pixelRatio : num)
  (projection : Projection).

(** C1, as amended.  A build over a URL list that is not empty, for a
    zoom level the grid covers, returns the selected URL, rewritten,
    with the query parameters of the builder appended.  Among those
    parameters each key occurs once, and SIZE, BBOX, BBOXSR and IMAGESR
    have the values the builder derives from the tile geometry and the
    projection, whatever the user parameters hold under these keys.  DPI
    is set by the builder as well, but from the user's DPI value: it is
    the rounded product of that value (90 when the user gives none, or a
    falsy one) and the pixel ratio. *)
Theorem C1_reserved_keys_set_by_builder s tileCoord pixelRatio projection us :
  State_wf s →
  urls (this s) = Some us → us ≠ [] →
  zoom_covered (active_grid (this s) projection) tileCoord →
  let grid := active_grid (this s) projection in
  let query := request_query s tileCoord pixelRatio projection in
  ∃ url,
    select_url us tileCoord = Some url ∧ url ∈ us
    ∧ (fixedTileUrlFunction tileCoord pixelRatio projection s).1
      = Return (Some (appendParams (modify_url url) query))
    ∧ obj_wf query
    ∧ obj_get "SIZE" query
      = Some (VString (size_text (tile_size grid tileCoord pixelRatio)))
    ∧ obj_get "BBOX" query
      = Some (VString (bbox_text (getTileCoordExtent grid tileCoord)))
    ∧ obj_get "BBOXSR" query = Some (VString (srid_of projection))
    ∧ obj_get "IMAGESR" query = Some (VString (srid_of projection))
    ∧ obj_get "DPI" query
      = Some (VNumber (scaled_dpi (obj_get "DPI" (stored s)) pixelRatio)).
Proof.
  intros Hwf Hurls Hne Hz. cbv zeta.
  destruct (fixedTileUrlFunction_builds s tileCoord pixelRatio projection us
              Hwf Hurls Hne Hz) as (url&Hsel&Hin&Hres).
  exists url. split; [done|]. split; [done|]. split; [done|].
  split; [by apply request_query_wf|]. unfold request_query.
  rewrite request_params_SIZE, request_params_BBOX, request_params_BBOXSR,
    request_params_IMAGESR, request_params_DPI, merged_DPI by done.
  done.
Qed.

(** C4, as amended.  A build over a URL list that is not empty, for a
    zoom level the grid covers, returns a URL whose DPI parameter is
    round(d * pixelRatio) when the merged parameters (the defaults
    overridden by the user parameters) hold a DPI entry d that is
    truthy, and round(90 * pixelRatio) when they hold no DPI entry or a
    falsy one (0, NaN, the empty string, false). *)
Theorem C4_dpi_scaled_by_pixel_ratio s tileCoord pixelRatio projection us :
  State_wf s →
  urls (this s) = Some us → us ≠ [] →
  zoom_covered (active_grid (this s) projection) tileCoord →
  let merged := obj_assign default_params (stored s) in
  let query := request_query s tileCoord pixelRatio projection in
  ∃ url,
    select_url us tileCoord = Some url ∧ url ∈ us
    ∧ (fixedTileUrlFunction tileCoord pixelRatio projection s).1
      = Return (Some (appendParams (modify_url url) query))
    ∧ obj_wf query
    ∧ obj_get "DPI" query
      = Some (VNumber
                match obj_get "DPI" merged with
                | Some d =>
                    if ToBoolean d then n_round (n_mul (ToNumber d) pixelRatio)
                    else n_round (n_mul (n_of_Z 90) pixelRatio)
                | None => n_round (n_mul (n_of_Z 90) pixelRatio)
                end).
Proof.
  intros Hwf Hurls Hne Hz. cbv zeta.
  destruct (fixedTileUrlFunction_builds s tileCoord pixelRatio projection us
              Hwf Hurls Hne Hz) as (url&Hsel&Hin&Hres).
  exists url. split; [done|]. split; [done|]. split; [done|].
  split; [by apply request_query_wf|]. unfold request_query.
  rewrite request_params_DPI. unfold scaled_dpi.
  destruct (obj_get "DPI" _) as [d|]; [|done]. by destruct (ToBoolean d).
Qed.

(** C5.  A build over a URL list that is not empty, for a zoom level the
    grid covers, returns a URL that carries SIZE as the width and the
    height of the tile in pixels (the size the grid gives for the zoom
    level, scaled by the pixel ratio unless that is 1) joined by a
    comma; BBOX as the four numbers of the tile extent joined by commas,
    in the order minX, minY, maxX, maxY; and BBOXSR and IMAGESR both as
    what follows the last ':' of the projection code (the code itself
    when it has no ':'). *)
Theorem C5_size_bbox_and_srid s tileCoord pixelRatio projection us :
  State_wf s →
  urls (this s) = Some us → us ≠ [] →
  zoom_covered (active_grid (this s) projection) tileCoord →
  let grid := active_grid (this s) projection in
  let size := toSize (getTileSize grid (tc_z tileCoord)) in
  let size := if n_eqb pixelRatio (n_of_Z 1) then size
              else scaleSize size pixelRatio in
  let e := getTileCoordExtent grid tileCoord in
  let srid := Str.pop (Str.split ":" (getCode projection)) in
  let query := request_query s tileCoord pixelRatio projection in
  ∃ url,
    select_url us tileCoord = Some url ∧ url ∈ us
    ∧ (fixedTileUrlFunction tileCoord pixelRatio projection s).1
      = Return (Some (appendParams (modify_url url) query))
    ∧ obj_wf query
    ∧ obj_get "SIZE" query
      = Some (VString (n_to_string (width size) +:+ ","
                       +:+ n_to_string (height size)))
    ∧ obj_get "BBOX" query
      = Some (VString (n_to_string (minX e) +:+ "," +:+ n_to_string (minY e)
                       +:+ "," +:+ n_to_string (maxX e) +:+ ","
                       +:+ n_to_string (maxY e)))
    ∧ obj_get "BBOXSR" query = Some (VString srid)
    ∧ obj_get "IMAGESR" query = Some (VString srid)
    ∧ Str.contains ":" srid = false
    ∧ (getCode projection = srid
       ∨ ∃ before, getCode projection = before +:+ ":" +:+ srid).
Proof.
  intros Hwf Hurls Hne Hz. cbv zeta.
  destruct (fixedTileUrlFunction_builds s tileCoord pixelRatio projection us
              Hwf Hurls Hne Hz) as (url&Hsel&Hin&Hres).
  exists url. split; [done|]. split; [done|]. split; [done|].
  split; [by apply request_query_wf|]. unfold request_query.
  rewrite request_params_SIZE, request_params_BBOX, request_params_BBOXSR,
    request_params_IMAGESR.
  split; [|split; [done|split; [done|split; [done|]]]].
  - unfold size_text, tile_size. by destruct (n_eqb pixelRatio (n_of_Z 1)).
  - apply (pop_split ":" (getCode projection)).
Qed.

End ReservedParameters.

(** C1, as stated, fails on DPI: the user's value reaches the URL.  At
    pixel ratio 1 a source with the parameter DPI = 96 requests DPI=96
    and a source without parameters DPI=90, for the same tile and the
    same projection; so the DPI of the request is not derived from the
    tile geometry and the projection alone. *)
Lemma C1_user_dpi_is_honoured :
  Run.result (fixedTileUrlFunction Run.tile (Run.Int 1) Run.EPSG3857)
    (Run.source (Some [Run.mapserver]) [("DPI", VNumber (Run.Int 96))])
  = Return (Some "https://host/arcgis/rest/services/X/MapServer/export?F=image&FORMAT=PNG32&TRANSPARENT=true&DPI=96&SIZE=256%2C256&BBOX=1024%2C1536%2C1536%2C2048&BBOXSR=3857&IMAGESR=3857")
  ∧ Run.result (fixedTileUrlFunction Run.tile (Run.Int 1) Run.EPSG3857)
      (Run.source (Some [Run.mapserver]) [])
    = Return (Some "https://host/arcgis/rest/services/X/MapServer/export?F=image&FORMAT=PNG32&TRANSPARENT=true&SIZE=256%2C256&BBOX=1024%2C1536%2C1536%2C2048&BBOXSR=3857&IMAGESR=3857&DPI=90")
  ∧ ¬ (∀ params params' : obj Run.jsint,
         obj_get "DPI" (request_query (Run.source (Some [Run.mapserver]) params)
                          Run.tile (Run.Int 1) Run.EPSG3857)
         = obj_get "DPI" (request_query (Run.source (Some [Run.mapserver]) params')
                            Run.tile (Run.Int 1) Run.EPSG3857)).
Proof.
  split; [by vm_compute|]. split; [by vm_compute|].
  intros Hall. specialize (Hall [("DPI", VNumber (Run.Int 96))] []).
  vm_compute in Hall. discriminate Hall.
Qed.

(** The amended C1 on a source whose user parameters set all five
    reserved keys: the build returns the URL below, whose query carries
    the values of the builder, not SIZE = "1,1", BBOX = "x" or the
    spatial reference 4326 of the user. *)
Lemma C1_reserved_keys_example :
  let s := Run.source (Some [Run.mapserver])
             [("SIZE", VString "1,1"); ("BBOX", VString "x");
              ("BBOXSR", VString "4326"); ("IMAGESR", VString "4326");
              ("DPI", VNumber (Run.Int 96)); ("LAYERS", VString "show:0")] in
  let query := request_query s Run.tile (Run.Int 1) Run.EPSG3857 in
  Run.result (fixedTileUrlFunction Run.tile (Run.Int 1) Run.EPSG3857) s
  = Return (Some "https://host/arcgis/rest/services/X/MapServer/export?F=image&FORMAT=PNG32&TRANSPARENT=true&SIZE=256%2C256&BBOX=1024%2C1536%2C1536%2C2048&BBOXSR=3857&IMAGESR=3857&DPI=96&LAYERS=show%3A0")
  ∧ Run.result (fixedTileUrlFunction Run.tile (Run.Int 1) Run.EPSG3857) s
    = Return (Some (appendParams "https://host/arcgis/rest/services/X/MapServer/export"
                      query))
  ∧ obj_wf query
  ∧ obj_get "SIZE" query = Some (VString "256,256")
  ∧ obj_get "BBOX" query = Some (VString "1024,1536,1536,2048")
  ∧ obj_get "BBOXSR" query = Some (VString "3857")
  ∧ obj_get "IMAGESR" query = Some (VString "3857")
  ∧ obj_get "DPI" query = Some (VNumber (Run.Int 96)).
Proof.
  cbv zeta.
  pose (params := [("SIZE", VString "1,1"); ("BBOX", VString "x");
                   ("BBOXSR", VString "4326"); ("IMAGESR", VString "4326");
                   ("DPI", VNumber (Run.Int 96)); ("LAYERS", VString "show:0")]
                  : obj Run.jsint).
  assert (Hwf : State_wf (Run.source (Some [Run.mapserver]) params))
    by (apply source_wf; obj_wf_by_computation).
  destruct (C1_reserved_keys_set_by_builder
              (Run.source (Some [Run.mapserver]) params)
              Run.tile (Run.Int 1) Run.EPSG3857 [Run.mapserver] Hwf eq_refl)
    as (url&Hsel&_&Hres&Hq&H1&H2&H3&H4&H5).
  - done.
  - unfold zoom_covered. simpl. lia.
  - injection Hsel as <-.
    split; [etrans; [exact Hres | by vm_compute]|].
    split; [exact Hres|]. split; [exact Hq|].
    split; [exact H1|]. split; [exact H2|]. split; [exact H3|].
    split; [exact H4|]. exact H5.
Defined.

(** C4, as stated, fails for a DPI entry that is present and falsy.
    With the user parameter DPI = 0 and pixel ratio 2 the merged
    parameters hold a DPI entry, and round(0 * 2) is 0; the URL carries
    DPI=180, as if the entry were absent. *)
Lemma C4_falsy_dpi_counts_as_absent :
  let s := Run.source (Some [Run.mapserver]) [("DPI", VNumber (Run.Int 0))] in
  obj_get "DPI" (obj_assign default_params (stored s)) = Some (VNumber (Run.Int 0))
  ∧ n_round (n_mul (ToNumber (VNumber (Run.Int 0))) (Run.Int 2)) = Run.Int 0
  ∧ obj_get "DPI" (request_query s Run.tile (Run.Int 2) Run.EPSG3857)
    = Some (VNumber (Run.Int 180))
  ∧ Run.result (fixedTileUrlFunction Run.tile (Run.Int 2) Run.EPSG3857) s
    = Return (Some "https://host/arcgis/rest/services/X/MapServer/export?F=image&FORMAT=PNG32&TRANSPARENT=true&DPI=180&SIZE=512%2C512&BBOX=1024%2C1536%2C1536%2C2048&BBOXSR=3857&IMAGESR=3857").
Proof. cbv zeta. repeat split; by vm_compute. Qed.

(** The two examples of C4, on builds at pixel ratio 2: a source without
    a DPI parameter requests DPI = 180, a source with DPI = 96 requests
    DPI = 192. *)
Lemma C4_dpi_examples :
  let s := Run.source (Some [Run.mapserver]) [] in
  let s' := Run.source (Some [Run.mapserver]) [("DPI", VNumber (Run.Int 96))] in
  (Run.result (fixedTileUrlFunction Run.tile (Run.Int 2) Run.EPSG3857) s
   = Return (Some "https://host/arcgis/rest/services/X/MapServer/export?F=image&FORMAT=PNG32&TRANSPARENT=true&SIZE=512%2C512&BBOX=1024%2C1536%2C1536%2C2048&BBOXSR=3857&IMAGESR=3857&DPI=180")
   ∧ obj_get "DPI" (request_query s Run.tile (Run.Int 2) Run.EPSG3857)
     = Some (VNumber (Run.Int 180)))
  ∧ (Run.result (fixedTileUrlFunction Run.tile (Run.Int 2) Run.EPSG3857) s'
     = Return (Some "https://host/arcgis/rest/services/X/MapServer/export?F=image&FORMAT=PNG32&TRANSPARENT=true&DPI=192&SIZE=512%2C512&BBOX=1024%2C1536%2C1536%2C2048&BBOXSR=3857&IMAGESR=3857")
     ∧ obj_get "DPI" (request_query s' Run.tile (Run.Int 2) Run.EPSG3857)
       = Some (VNumber (Run.Int 192))).
Proof.
  cbv zeta. split.
  - assert (Hwf : State_wf (Run.source (Some [Run.mapserver]) []))
      by (apply source_wf; obj_wf_by_computation).
    destruct (C4_dpi_scaled_by_pixel_ratio _ Run.tile (Run.Int 2) Run.EPSG3857
                [Run.mapserver] Hwf eq_refl) as (url&Hsel&_&Hres&_&Hd).
    + done.
    + unfold zoom_covered. simpl. lia.
    + injection Hsel as <-.
      split; [etrans; [exact Hres | by vm_compute] | exact Hd].
  - assert (Hwf : State_wf (Run.source (Some [Run.mapserver])
                              [("DPI", VNumber (Run.Int 96))]))
      by (apply source_wf; obj_wf_by_computation).
    destruct (C4_dpi_scaled_by_pixel_ratio _ Run.tile (Run.Int 2) Run.EPSG3857
                [Run.mapserver] Hwf eq_refl) as (url&Hsel&_&Hres&_&Hd).
    + done.
    + unfold zoom_covered. simpl. lia.
    + injection Hsel as <-.
      split; [etrans; [exact Hres | by vm_compute] | exact Hd].
Defined.

(** C5 on builds for the tile [1, 2, 3] of the example grid and
    EPSG:3857.  At pixel ratio 1 the URL carries SIZE 256,256, BBOX
    1024,1536,1536,2048 and both spatial references 3857; at pixel
    ratio 2 the size is scaled to 512,512. *)
Lemma C5_size_bbox_and_srid_example :
  let s := Run.source (Some [Run.mapserver]) [] in
  let query := request_query s Run.tile (Run.Int 1) Run.EPSG3857 in
  let query2 := request_query s Run.tile (Run.Int 2) Run.EPSG3857 in
  (Run.result (fixedTileUrlFunction Run.tile (Run.Int 1) Run.EPSG3857) s
   = Return (Some "https://host/arcgis/rest/services/X/MapServer/export?F=image&FORMAT=PNG32&TRANSPARENT=true&SIZE=256%2C256&BBOX=1024%2C1536%2C1536%2C2048&BBOXSR=3857&IMAGESR=3857&DPI=90")
   ∧ obj_get "SIZE" query = Some (VString "256,256")
   ∧ obj_get "BBOX" query = Some (VString "1024,1536,1536,2048")
   ∧ obj_get "BBOXSR" query = Some (VString "3857")
   ∧ obj_get "IMAGESR" query = Some (VString "3857"))
  ∧ (Run.result (fixedTileUrlFunction Run.tile (Run.Int 2) Run.EPSG3857) s
     = Return (Some "https://host/arcgis/rest/services/X/MapServer/export?F=image&FORMAT=PNG32&TRANSPARENT=true&SIZE=512%2C512&BBOX=1024%2C1536%2C1536%2C2048&BBOXSR=3857&IMAGESR=3857&DPI=180")
     ∧ obj_get "SIZE" query2 = Some (VString "512,512")).
Proof.
  cbv zeta.
  assert (Hwf : State_wf (Run.source (Some [Run.mapserver]) []))
    by (apply source_wf; obj_wf_by_computation).
  split.
  - destruct (C5_size_bbox_and_srid _ Run.tile (Run.Int 1) Run.EPSG3857
                [Run.mapserver] Hwf eq_refl)
      as (url&Hsel&_&Hres&_&H1&H2&H3&H4&_).
    + done.
    + unfold zoom_covered. simpl. lia.
    + injection Hsel as <-.
      split; [etrans; [exact Hres | by vm_compute]|].
      split; [exact H1|]. split; [exact H2|]. split; [exact H3 | exact H4].
  - destruct (C5_size_bbox_and_srid _ Run.tile (Run.Int 2) Run.EPSG3857
                [Run.mapserver] Hwf eq_refl)
      as (url&Hsel&_&Hres&_&H1&_).
    + done.
    + unfold zoom_covered. simpl. lia.
    + injection Hsel as <-.
      split; [etrans; [exact Hres | by vm_compute] | exact H1].
Defined.

(** ** Selecting a URL, and failing to (C2, C8) *)

Section UrlSelection.
Context {num : Type} `{JsNumber num} `{Imports num}.
Implicit Types (s : State num) (tileCoord : TileCoord) (pixelRatio : num)
  (projection : Projection).

(** C2, at the input on which the code departs from it.  When the
    configured URL list is empty and the grid covers the zoom level, a
    build does not return undefined: [urls[index]] is undefined and the
    call of [replace] on it throws a TypeError. *)
Theorem C2_empty_url_list_throws s tileCoord pixelRatio projection :
  State_wf s →
  urls (this s) = Some [] →
  zoom_covered (active_grid (this s) projection) tileCoord →
  (fixedTileUrlFunction tileCoord pixelRatio projection s).1 = Throw TypeError.
Proof.
  intros Hwf Hurls Hz%zoom_covered_spec.
  by rewrite fixedTileUrlFunction_result, Hz, Hurls.
Qed.

(** C8.  With exactly one configured URL a build requests that URL,
    rewritten, for every tile coordinate.  With N > 1 configured URLs it
    requests the URL at index hash(tileCoord) mod N of the list, an
    index that always lies in the list; the hash is a function of the
    tile coordinate, so the same coordinate always selects the same
    URL. *)
Theorem C8_url_selected_by_hash s tileCoord pixelRatio projection us :
  State_wf s →
  urls (this s) = Some us →
  zoom_covered (active_grid (this s) projection) tileCoord →
  let query := request_query s tileCoord pixelRatio projection in
  let r := (fixedTileUrlFunction tileCoord pixelRatio projection s).1 in
  (∀ url, us = [url] → r = Return (Some (appendParams (modify_url url) query)))
  ∧ (1 < length us →
     ∃ url,
       us !! Z.to_nat (tileCoordHash tileCoord `mod` Z.of_nat (length us))
       = Some url
       ∧ r = Return (Some (appendParams (modify_url url) query))).
Proof.
  intros Hwf Hurls Hz%zoom_covered_spec. cbv zeta.
  rewrite fixedTileUrlFunction_result, Hz, Hurls by done. split.
  - by intros url ->.
  - intros Hlen. destruct (select_url_many us tileCoord Hlen) as [E [url Hsel]].
    exists url. rewrite <- E. by rewrite Hsel.
Qed.

End UrlSelection.

(** C2 on a source constructed with [urls: []]. *)
Lemma C2_empty_url_list_throws_example :
  Run.result (fixedTileUrlFunction Run.tile (Run.Int 1) Run.EPSG3857)
    (Run.source (Some []) [])
  = Throw TypeError.
Proof.
  apply (C2_empty_url_list_throws (Run.source (Some []) [])).
  - apply source_wf. obj_wf_by_computation.
  - reflexivity.
  - unfold zoom_covered. simpl. lia.
Defined.

(** C8 on one URL, and on three: the hash of the tile [1, 2, 3] is 7,
    and 7 mod 3 = 1 selects the second URL. *)
Lemma C8_url_selected_by_hash_example :
  Run.result (fixedTileUrlFunction Run.tile (Run.Int 1) Run.EPSG3857)
    (Run.source (Some [Run.mapserver]) [])
  = Return (Some "https://host/arcgis/rest/services/X/MapServer/export?F=image&FORMAT=PNG32&TRANSPARENT=true&SIZE=256%2C256&BBOX=1024%2C1536%2C1536%2C2048&BBOXSR=3857&IMAGESR=3857&DPI=90")
  ∧ ∃ url,
      ["http://a/MapServer"; "http://b/MapServer"; "http://c/MapServer"] !! 1%nat
      = Some url
      ∧ Run.result (fixedTileUrlFunction Run.tile (Run.Int 1) Run.EPSG3857)
          (Run.source (Some ["http://a/MapServer"; "http://b/MapServer";
                             "http://c/MapServer"]) [])
        = Return (Some (appendParams (modify_url url)
                          (request_query
                             (Run.source (Some ["http://a/MapServer";
                                                "http://b/MapServer";
                                                "http://c/MapServer"]) [])
                             Run.tile (Run.Int 1) Run.EPSG3857))).
Proof.
  assert (Hwf : ∀ us, State_wf (Run.source (Some us) []))
    by (intros us; apply source_wf; obj_wf_by_computation).
  assert (Hz : ∀ us, zoom_covered
                       (active_grid (this (Run.source (Some us) [])) Run.EPSG3857)
                       Run.tile)
    by (intros us; unfold zoom_covered; simpl; lia).
  split.
  - destruct (C8_url_selected_by_hash _ Run.tile (Run.Int 1) Run.EPSG3857 _
                (Hwf [Run.mapserver]) eq_refl (Hz _)) as [Hone _].
    unfold Run.result. rewrite (Hone Run.mapserver eq_refl).
    vm_compute. reflexivity.
  - destruct (C8_url_selected_by_hash _ Run.tile (Run.Int 1) Run.EPSG3857 _
                (Hwf ["http://a/MapServer"; "http://b/MapServer";
                      "http://c/MapServer"]) eq_refl (Hz _)) as [_ Hmany].
    apply Hmany. simpl. lia.
Defined.

(** ** The cache key (C3, C6) *)

Section CacheKey.
Context {num : Type} `{JsNumber num} `{Imports num}.
Implicit Types (s : State num) (params : obj num).

(** C3, as amended.  The cache key is a function of the entries of the
    parameter set, each taken as its key and the string form of its
    value, in enumeration order: sets with the same entries have the
    same cache key.  Conversely, for parameter sets in which no key
    holds '-' or '/' and no value prints with a '/', equal cache keys
    imply equal entries. *)
Theorem C3_cache_key_and_entries params params' :
  (entries params = entries params' → cache_key params = cache_key params')
  ∧ (separator_free params → separator_free params' →
     cache_key params = cache_key params' → entries params = entries params').
Proof.
  split.
  - intros E. by rewrite !cache_key_entries, E.
  - apply cache_key_inj.
Qed.

(** C6.  [updateParams] replaces the stored parameters with their
    shallow merge with the update: a key of the update gets the value of
    the update, any other key keeps its stored value.  Afterwards the
    cache key is the entries of the merged set, each formatted as key,
    '-', value, in the enumeration order of the object, joined with '/';
    it is the empty string when the merged set is empty. *)
Theorem C6_update_merges_and_rekeys s (update : ref) :
  State_wf s →
  let s' := (updateParams update s).2 in
  let merged := stored s' in
  (∀ key, obj_get key merged
          = match obj_get key (default [] (heap s !! update)) with
            | Some v => Some v
            | None => obj_get key (stored s)
            end)
  ∧ obj_wf merged
  ∧ key_ (this s')
    = Str.join "/" ((λ kv, kv.1 +:+ "-" +:+ ToString kv.2) <$> merged)
  ∧ (merged = [] → key_ (this s') = "").
Proof.
  intros Hwf. cbv zeta.
  destruct (updateParams_spec s update Hwf) as (Hm&Hk&Hwf').
  assert (Hu : obj_wf (default [] (heap s !! update))).
  { destruct Hwf as [_ Hall].
    destruct (heap s !! update) as [o|] eqn:E; simpl.
    - by apply (Forall_lookup_1 _ _ _ _ Hall E).
    - split; constructor. }
  split; [|split; [|split]].
  - intros key. rewrite Hm. by apply obj_get_assign.
  - by apply stored_wf.
  - exact Hk.
  - intros E. by rewrite Hk, E.
Qed.

End CacheKey.

(** C3, as stated, fails: two different parameter sets share a cache
    key.  The set {a: "b/c-d"} and the set {a: "b", c: "d"} both have
    the key "a-b/c-d"; and updating the first with the second changes
    the entry of a, adds one for c, and leaves the cache key as it
    was. *)
Lemma C3_cache_keys_collide :
  let params := [("a", VString "b/c-d")] : obj Run.jsint in
  let params' := [("a", VString "b"); ("c", VString "d")] : obj Run.jsint in
  let s := Run.source_in None [params; params'] in
  let s' := Run.after (updateParams 1%nat) s in
  (cache_key params = "a-b/c-d" ∧ cache_key params' = "a-b/c-d"
   ∧ params ≠ params' ∧ entries params ≠ entries params')
  ∧ (stored s = params ∧ stored s' = params'
     ∧ key_ (this s) = "a-b/c-d" ∧ key_ (this s') = "a-b/c-d")
  ∧ ¬ (∀ p q : obj Run.jsint, cache_key p = cache_key q ↔ p = q).
Proof.
  cbv zeta. split; [|split].
  - repeat split; try by vm_compute.
  - repeat split; by vm_compute.
  - intros Hall.
    destruct (Hall [("a", VString "b/c-d")] [("a", VString "b"); ("c", VString "d")])
      as [Hinj _].
    discriminate (Hinj eq_refl).
Qed.

(** The amended C3 on two parameter sets without separators that
    differ in a value only: their cache keys differ. *)
Lemma C3_cache_key_and_entries_example :
  cache_key ([("LAYERS", VString "show:0"); ("DPI", VNumber (Run.Int 96))]
             : obj Run.jsint)
  ≠ cache_key ([("LAYERS", VString "show:1"); ("DPI", VNumber (Run.Int 96))]
               : obj Run.jsint).
Proof.
  intros E.
  apply (C3_cache_key_and_entries
           ([("LAYERS", VString "show:0"); ("DPI", VNumber (Run.Int 96))]
            : obj Run.jsint)
           [("LAYERS", VString "show:1"); ("DPI", VNumber (Run.Int 96))]) in E.
  - discriminate E.
  - repeat constructor.
  - repeat constructor.
Defined.

(** C6 on the stored set {FORMAT: "PNG", 7: "g"} and the update
    {LAYERS: "show:0", FORMAT: "JPG", 2: "b"}: the array-index keys come
    first in ascending order, FORMAT keeps its place and takes the value
    of the update, LAYERS is appended. *)
Lemma C6_update_merges_and_rekeys_example :
  let s := Run.source_in None
             [[("7", VString "g"); ("FORMAT", VString "PNG")];
              [("2", VString "b"); ("LAYERS", VString "show:0");
               ("FORMAT", VString "JPG")]] in
  let s' := Run.after (updateParams 1%nat) s in
  stored s' = [("2", VString "b"); ("7", VString "g"); ("FORMAT", VString "JPG");
               ("LAYERS", VString "show:0")]
  ∧ key_ (this s') = "2-b/7-g/FORMAT-JPG/LAYERS-show:0"
  ∧ obj_get "FORMAT" (stored s') = Some (VString "JPG").
Proof.
  cbv zeta.
  assert (Hwf : State_wf (Run.source_in None
             [[("7", VString "g"); ("FORMAT", VString "PNG")];
              [("2", VString "b"); ("LAYERS", VString "show:0");
               ("FORMAT", VString "JPG")]])).
  { apply source_in_wf; [done|].
    constructor; [obj_wf_by_computation|].
    constructor; [obj_wf_by_computation | constructor]. }
  destruct (C6_update_merges_and_rekeys _ 1%nat Hwf) as (Hget&_&Hkey&_).
  split; [by vm_compute|]. split.
  - unfold Run.after. rewrite Hkey. by vm_compute.
  - unfold Run.after. rewrite (Hget "FORMAT"). by vm_compute.
Defined.

(** A key the update sets reads as the update has it. *)
Lemma obj_get_assign_new {num : Type} (key : string) (v : value num)
    (target : obj num) :
  obj_get key (obj_assign target [(key, v)]) = Some v.
Proof. apply obj_get_set_eq. Qed.

(** ** Builds and the state they find (C9, C10) *)

Section BuildsAndState.
Context {num : Type} `{JsNumber num} `{Imports num}.
Implicit Types (s : State num) (tileCoord : TileCoord) (pixelRatio : num)
  (projection : Projection) (calls : list (call num)).

(** The result of a build is determined by the configuration and the
    stored parameters. *)
Lemma fixedTileUrlFunction_depends s1 s2 tileCoord pixelRatio projection :
  State_wf s1 → State_wf s2 →
  urls (this s1) = urls (this s2) →
  tileGrid (this s1) = tileGrid (this s2) →
  stored s1 = stored s2 →
  (fixedTileUrlFunction tileCoord pixelRatio projection s1).1
  = (fixedTileUrlFunction tileCoord pixelRatio projection s2).1.
Proof.
  intros Hwf1 Hwf2 Hu Hg Hs. rewrite !fixedTileUrlFunction_result by done.
  unfold request_query, active_grid. by rewrite Hu, Hg, Hs.
Qed.

(** C9.  Builds never modify the stored user parameters or the cache
    key: the reserved keys are written to a working copy allocated by
    the call.  After any number of builds the object [params_] refers to
    and the cache key are what they were; so after
    [updateParams({BBOX: "x"})], and any builds, the cache key still
    contains "BBOX-x". *)
Theorem C9_builds_keep_params_and_key s calls :
  State_wf s →
  let s' := (builds calls s).2 in
  (params_ (this s') = params_ (this s)
   ∧ heap s' !! params_ (this s') = heap s !! params_ (this s)
   ∧ key_ (this s') = key_ (this s))
  ∧ ∀ update : ref,
      heap s !! update = Some [("BBOX", VString "x")] →
      let t := (builds calls (updateParams update s).2).2 in
      ∃ a b, key_ (this t) = a +:+ "BBOX-x" +:+ b.
Proof.
  intros Hwf. cbv zeta. split.
  - destruct (builds_preserves calls s Hwf) as [_ (_&_&Hp&Hk&Hh)].
    destruct Hwf as [Hlt _]. rewrite Hp. by rewrite Hh.
  - intros update Hupd.
    destruct (updateParams_spec s update Hwf) as (Hm&Hk&Hwf1).
    destruct (builds_preserves calls _ Hwf1) as [_ (_&_&_&Hk'&_)].
    rewrite Hk', Hk.
    apply (cache_key_contains "BBOX" (VString "x")).
    rewrite Hm, Hupd. by apply obj_get_assign_new.
Qed.

(** C10.  A build is deterministic in what it is given: two states of a
    source with the same URL list, the same tile grid and the same
    stored parameters return the same result for the same tile
    coordinate, pixel ratio and projection, whatever the scratch extent
    holds.  In particular builds made in between, which overwrite the
    scratch extent, do not change the result. *)
Theorem C10_build_is_deterministic s1 s2 calls tileCoord pixelRatio projection :
  State_wf s1 → State_wf s2 →
  urls (this s1) = urls (this s2) →
  tileGrid (this s1) = tileGrid (this s2) →
  stored s1 = stored s2 →
  (fixedTileUrlFunction tileCoord pixelRatio projection s1).1
  = (fixedTileUrlFunction tileCoord pixelRatio projection s2).1
  ∧ (fixedTileUrlFunction tileCoord pixelRatio projection (builds calls s1).2).1
    = (fixedTileUrlFunction tileCoord pixelRatio projection s1).1.
Proof.
  intros Hwf1 Hwf2 Hu Hg Hs. split.
  - by apply fixedTileUrlFunction_depends.
  - destruct (builds_preserves calls s1 Hwf1) as [Hwf' Hp].
    pose proof (preserves_stored _ _ Hwf1 Hp) as Hs'.
    destruct Hp as (Hu'&Hg'&_).
    by apply fixedTileUrlFunction_depends.
Qed.

End BuildsAndState.

(** C9 on a source without parameters: after [updateParams({BBOX: "x"})]
    and two builds, [params_] still holds BBOX = "x", not the extent the
    builds computed, and the cache key is "BBOX-x". *)
Lemma C9_builds_keep_params_and_key_example :
  let s := Run.source_in (Some [Run.mapserver]) [[]; [("BBOX", VString "x")]] in
  let s1 := Run.after (updateParams 1%nat) s in
  let calls := [Call Run.tile (Run.Int 2) Run.EPSG3857;
                Call {| tc_z := 0; tc_x := 0; tc_y := 0 |} (Run.Int 1) Run.EPSG3857] in
  let s2 := Run.after (builds calls) s1 in
  heap s2 !! params_ (this s2) = Some [("BBOX", VString "x")]
  ∧ key_ (this s2) = "BBOX-x"
  ∧ ∃ a b, key_ (this s2) = a +:+ "BBOX-x" +:+ b.
Proof.
  cbv zeta.
  assert (Hwf : State_wf (Run.source_in (Some [Run.mapserver])
                            [[]; [("BBOX", VString "x")]])).
  { apply source_in_wf; [done|].
    constructor; [obj_wf_by_computation|].
    constructor; [obj_wf_by_computation | constructor]. }
  assert (Hwf1 : State_wf (Run.after (updateParams 1%nat)
                             (Run.source_in (Some [Run.mapserver])
                                [[]; [("BBOX", VString "x")]])))
    by apply (updateParams_spec _ 1%nat Hwf).
  destruct (C9_builds_keep_params_and_key _
              [Call Run.tile (Run.Int 2) Run.EPSG3857;
               Call {| tc_z := 0; tc_x := 0; tc_y := 0 |} (Run.Int 1) Run.EPSG3857]
              Hwf1) as [(Hp&Hh&Hk) _].
  destruct (C9_builds_keep_params_and_key _
              [Call Run.tile (Run.Int 2) Run.EPSG3857;
               Call {| tc_z := 0; tc_x := 0; tc_y := 0 |} (Run.Int 1) Run.EPSG3857]
              Hwf) as [_ Hx].
  split; [|split].
  - etrans; [exact Hh | by vm_compute].
  - etrans; [exact Hk | by vm_compute].
  - exact (Hx 1%nat eq_refl).
Defined.

(** C10 on two states of one source that differ in the scratch extent
    and in the rest of the heap, and on the state two builds leave. *)
Lemma C10_build_is_deterministic_example :
  let s1 := Run.source (Some [Run.mapserver]) [("DPI", VNumber (Run.Int 96))] in
  let s2 := {| heap := [[("DPI", VNumber (Run.Int 96))]; [("F", VString "json")]];
               this := with_tmpExtent (this s1)
                         {| minX := Run.Int 1; minY := Run.Int 2;
                            maxX := Run.Int 3; maxY := Run.Int 4 |} |} in
  let calls := [Call {| tc_z := 2; tc_x := 5; tc_y := 1 |} (Run.Int 1) Run.EPSG3857;
                Call {| tc_z := 0; tc_x := 0; tc_y := 0 |} (Run.Int 3) Run.EPSG3857] in
  Run.result (fixedTileUrlFunction Run.tile (Run.Int 2) Run.EPSG3857) s1
  = Run.result (fixedTileUrlFunction Run.tile (Run.Int 2) Run.EPSG3857) s2
  ∧ Run.result (fixedTileUrlFunction Run.tile (Run.Int 2) Run.EPSG3857)
      (Run.after (builds calls) s1)
    = Run.result (fixedTileUrlFunction Run.tile (Run.Int 2) Run.EPSG3857) s1.
Proof.
  cbv zeta. apply C10_build_is_deterministic.
  - apply source_wf. obj_wf_by_computation.
  - split; [simpl; lia|].
    constructor; [obj_wf_by_computation|].
    constructor; [obj_wf_by_computation | constructor].
  - reflexivity.
  - reflexivity.
  - reflexivity.
Defined.

(** ** The examples of the specification *)

(** Zoom guard: the example grid has resolutions for the zoom levels 0
    to 2, and a tile at zoom level 3 has no URL. *)
Example zoom_guard :
  Run.result (fixedTileUrlFunction {| tc_z := 3; tc_x := 0; tc_y := 0 |}
                (Run.Int 1) Run.EPSG3857)
    (Run.source (Some [Run.mapserver]) [])
  = Return None.
Proof. reflexivity. Qed.

(** Without configured URLs no tile has a URL. *)
Example no_urls :
  Run.result (fixedTileUrlFunction Run.tile (Run.Int 1) Run.EPSG3857)
    (Run.source None [])
  = Return None.
Proof. reflexivity. Qed.

(** The projection code EPSG:102100 yields the spatial reference
    102100. *)
Example srid_102100 : srid_of {| getCode := "EPSG:102100" |} = "102100".
Proof. reflexivity. Qed.

(** An image service with a trailing slash, two mirrors, and a user
    parameter next to the defaults: the hash of the tile [1, 2, 3] is
    7, which selects the second URL. *)
Example image_service :
  Run.result (fixedTileUrlFunction Run.tile (Run.Int 1) Run.EPSG3857)
    (Run.source (Some ["https://a/arcgis/rest/services/X/ImageServer/";
                       "https://b/arcgis/rest/services/X/ImageServer/"])
       [("FORMAT", VString "jpg"); ("LAYERS", VString "show:0,1")])
  = Return (Some "https://b/arcgis/rest/services/X/ImageServer/exportImage?F=image&FORMAT=jpg&TRANSPARENT=true&LAYERS=show%3A0%2C1&SIZE=256%2C256&BBOX=1024%2C1536%2C1536%2C2048&BBOXSR=3857&IMAGESR=3857&DPI=90").
Proof. by vm_compute. Qed.

(** * Further properties *)

(** ** The cache key over a run of operations *)

Section RunFacts.
Context {num : Type} `{JsNumber num} `{Imports num}.
Implicit Types (s : State num) (tileCoord : TileCoord) (pixelRatio : num)
  (projection : Projection).

Lemma fixedTileUrlFunction_key_current s tileCoord pixelRatio projection :
  State_wf s → key_current s →
  key_current (fixedTileUrlFunction tileCoord pixelRatio projection s).2.
Proof.
  intros Hwf Hk.
  destruct (fixedTileUrlFunction_preserves s tileCoord pixelRatio projection Hwf)
    as [_ Hp].
  unfold key_current. rewrite (preserves_stored _ _ Hwf Hp).
  destruct Hp as (_&_&_&->&_). exact Hk.
Qed.

Lemma run_invariant (ops : list (op num)) s :
  State_wf s → key_current s →
  State_wf (run ops s).2 ∧ key_current (run ops s).2.
Proof.
  revert s. induction ops as [|[c|update] ops IH]; intros s Hwf Hk; simpl.
  - done.
  - unfold bind.
    pose proof (fixedTileUrlFunction_preserves s (call_coord c) (call_ratio c)
                  (call_projection c) Hwf) as [Hwf1 _].
    pose proof (fixedTileUrlFunction_key_current s (call_coord c) (call_ratio c)
                  (call_projection c) Hwf Hk) as Hk1.
    destruct (fixedTileUrlFunction _ _ _ s) as [r s1]. by apply IH.
  - unfold bind.
    destruct (updateParams_spec s update Hwf) as (_&Hk1&Hwf1).
    destruct (updateParams update s) as [r s1]. by apply IH.
Qed.

(** X1.  From its construction on, and through any sequence of builds
    and calls of [updateParams], the cache key of a source is the key
    [getKeyForParams_] computes from the parameters it holds. *)
Theorem X1_cache_key_current_over_runs (options : Options) (h : list (obj num))
    (ops : list (op num)) :
  Forall obj_wf h →
  (∀ r, opt_params options = Some r → r < length h) →
  let s := (run ops (TileArcGISRest options h)).2 in
  key_ (this s) = (getKeyForParams_ s).1
  ∧ params_ (this s) < length (heap s).
Proof.
  intros Hall Hr. cbv zeta.
  destruct (TileArcGISRest_wf options h Hall Hr) as [Hwf Hk].
  destruct (run_invariant ops _ Hwf Hk) as [[Hp _] Hk'].
  split; [exact Hk' | exact Hp].
Qed.

End RunFacts.

(** X1 on a source constructed over {LAYERS: "show:0"}, then updated
    with {FORMAT: "jpg"} between two builds. *)
Lemma X1_cache_key_current_over_runs_example :
  let s := Run.after
             (run [Build (Call Run.tile (Run.Int 1) Run.EPSG3857);
                   Update 1%nat;
                   Build (Call Run.tile (Run.Int 2) Run.EPSG3857)])
             (Run.source_in (Some [Run.mapserver])
                [[("LAYERS", VString "show:0")]; [("FORMAT", VString "jpg")]]) in
  key_ (this s) = "LAYERS-show:0/FORMAT-jpg".
Proof.
  cbv zeta.
  destruct (X1_cache_key_current_over_runs
              {| opt_urls := Some [Run.mapserver]; opt_tileGrid := None;
                 opt_params := Some 0%nat |}
              [[("LAYERS", VString "show:0")]; [("FORMAT", VString "jpg")]]
              [Build (Call Run.tile (Run.Int 1) Run.EPSG3857);
               Update 1%nat;
               Build (Call Run.tile (Run.Int 2) Run.EPSG3857)])
    as [Hk _].
  - constructor; [obj_wf_by_computation|].
    constructor; [obj_wf_by_computation | constructor].
  - intros r [= <-]. simpl. lia.
  - etrans; [exact Hk | by vm_compute].
Defined.

(** ** The outcome and the effects of a build *)

Section BuildOutcome.
Context {num : Type} `{JsNumber num} `{Imports num}.
Implicit Types (s : State num) (tileCoord : TileCoord) (pixelRatio : num)
  (projection : Projection).

(** X2.  The three outcomes of a build, each with the exact condition
    under which it occurs.  Undefined is returned when no URL list is
    configured or the grid has no resolution for the zoom level; a
    TypeError is thrown when the URL list is empty and the zoom level is
    covered, and in no other case; otherwise a URL is returned, which is
    one of the configured URLs, rewritten, with the query appended. *)
Theorem X2_outcomes_of_a_build s tileCoord pixelRatio projection :
  State_wf s →
  let r := (fixedTileUrlFunction tileCoord pixelRatio projection s).1 in
  let covered := zoom_covered (active_grid (this s) projection) tileCoord in
  (r = Return None ↔ urls (this s) = None ∨ ¬ covered)
  ∧ (∀ e, r = Throw e ↔ e = TypeError ∧ urls (this s) = Some [] ∧ covered)
  ∧ (∀ u, r = Return (Some u) ↔
          covered
          ∧ ∃ us url, urls (this s) = Some us
                      ∧ select_url us tileCoord = Some url ∧ url ∈ us
                      ∧ u = appendParams (modify_url url)
                              (request_query s tileCoord pixelRatio projection)).
Proof.
  intros Hwf. cbv zeta. rewrite fixedTileUrlFunction_result by done.
  destruct (_ <=? _)%Z eqn:Hz.
  { assert (Hn : ¬ zoom_covered (active_grid (this s) projection) tileCoord)
      by (rewrite <- zoom_covered_spec; congruence).
    split; [|split].
    - split; [by right | done].
    - intros e. split; [done | by intros (_&_&?)].
    - intros u. split; [done | by intros [? _]]. }
  apply zoom_covered_spec in Hz.
  destruct (urls (this s)) as [us|].
  2:{ split; [|split].
      - split; [by left | done].
      - intros e. split; [done | by intros (_&?&_)].
      - intros u. split; [done | by intros (_&?&?&?&_)]. }
  destruct (select_url us tileCoord) as [url|] eqn:Hsel.
  - split; [|split].
    + split; [done | by intros [|[]]].
    + intros e. split; [done|]. intros (_&[= ->]&_).
      by rewrite select_url_empty in Hsel.
    + intros u. split.
      * intros [= <-]. split; [done|]. exists us, url.
        repeat split; try done. by apply (select_url_elem _ tileCoord).
      * intros (_&us'&url'&[= <-]&Hsel'&_&->). congruence.
  - apply select_url_None in Hsel as ->. split; [|split].
    + split; [done | by intros [|[]]].
    + intros []. by split.
    + intros u. split; [done|]. by intros (_&us'&url'&[= <-]&Hsel'&_).
Qed.

(** X3.  What a build does to the parameter objects and to the fields
    of the source declared or used by name in this file.  For a zoom
    level the grid does not cover it changes nothing.  Otherwise it
    appends exactly one object to the heap of plain objects, its working
    copy, which outside the reserved keys holds the defaults overridden
    by the user parameters; every plain object that existed before is
    left as it was; [tmpExtent_] is overwritten with the extent of the
    tile; and [urls], [tileGrid], [params_] and the cache key are as
    before.  (The scratch size [tmpSize] of the parent class, which
    lines 196-201 hand to [toSize] and [scale] as output buffer, is not
    part of the state modelled here, and nothing is said about it.) *)
Theorem X3_effects_of_a_build s tileCoord pixelRatio projection :
  State_wf s →
  let s' := (fixedTileUrlFunction tileCoord pixelRatio projection s).2 in
  let grid := active_grid (this s) projection in
  (¬ zoom_covered grid tileCoord → s' = s)
  ∧ (zoom_covered grid tileCoord →
     ∃ copy, heap s' = heap s ++ [copy]
             ∧ tmpExtent_ (this s') = getTileCoordExtent grid tileCoord
             ∧ urls (this s') = urls (this s)
             ∧ tileGrid (this s') = tileGrid (this s)
             ∧ params_ (this s') = params_ (this s)
             ∧ key_ (this s') = key_ (this s)
             ∧ ∀ key, key ∉ reserved_keys →
                 obj_get key copy
                 = obj_get key (obj_assign default_params (stored s))).
Proof.
  intros [Hp Hall]. cbv zeta.
  rewrite fixedTileUrlFunction_eq by done. cbv zeta.
  destruct (_ <=? _)%Z eqn:Hz.
  { split; [done|]. intros Hc%zoom_covered_spec. congruence. }
  apply zoom_covered_spec in Hz. split; [done|]. intros _.
  destruct (urls (this s)) as [us|] eqn:Hu; cbn [snd heap this].
  - eexists. split; [done|]. repeat (split; [done|]). intros key Hkey.
    by apply request_params_other.
  - eexists. split; [done|]. by repeat (split; [done|]).
Qed.

End BuildOutcome.

(** X2 on the three kinds of source: one URL, an empty list, none. *)
Lemma X2_outcomes_of_a_build_example :
  (∃ u, Run.result (fixedTileUrlFunction Run.tile (Run.Int 1) Run.EPSG3857)
          (Run.source (Some [Run.mapserver]) []) = Return (Some u))
  ∧ Run.result (fixedTileUrlFunction Run.tile (Run.Int 1) Run.EPSG3857)
      (Run.source (Some []) []) = Throw TypeError
  ∧ Run.result (fixedTileUrlFunction Run.tile (Run.Int 1) Run.EPSG3857)
      (Run.source None []) = Return None.
Proof.
  assert (Hwf : ∀ us, State_wf (Run.source us []))
    by (intros us; apply source_wf; obj_wf_by_computation).
  assert (Hz : ∀ us, zoom_covered
                       (active_grid (this (Run.source us [])) Run.EPSG3857)
                       Run.tile)
    by (intros us; unfold zoom_covered; simpl; lia).
  split; [|split].
  - destruct (X2_outcomes_of_a_build _ Run.tile (Run.Int 1) Run.EPSG3857
                (Hwf (Some [Run.mapserver]))) as (_&_&Hu).
    eexists. apply Hu. split; [apply Hz|].
    exists [Run.mapserver], Run.mapserver.
    split; [reflexivity|]. split; [reflexivity|].
    split; [apply list_elem_of_here | reflexivity].
  - destruct (X2_outcomes_of_a_build _ Run.tile (Run.Int 1) Run.EPSG3857
                (Hwf (Some []))) as (_&Ht&_).
    apply Ht. split; [reflexivity|]. split; [reflexivity | apply Hz].
  - destruct (X2_outcomes_of_a_build _ Run.tile (Run.Int 1) Run.EPSG3857
                (Hwf None)) as (Hn&_&_).
    apply Hn. by left.
Defined.

(** X3 on a build at zoom level 1, which the example grid covers, and
    on one at zoom level 5, which it does not. *)
Lemma X3_effects_of_a_build_example :
  let s := Run.source (Some [Run.mapserver]) [("LAYERS", VString "show:0")] in
  let s' := Run.after (fixedTileUrlFunction Run.tile (Run.Int 1) Run.EPSG3857) s in
  (∃ copy,
     heap s' = [[("LAYERS", VString "show:0")]; copy]
     ∧ obj_get "LAYERS" copy = Some (VString "show:0")
     ∧ key_ (this s') = "LAYERS-show:0")
  ∧ Run.after (fixedTileUrlFunction {| tc_z := 5; tc_x := 0; tc_y := 0 |}
                 (Run.Int 1) Run.EPSG3857) s = s.
Proof.
  cbv zeta.
  assert (Hwf : State_wf (Run.source (Some [Run.mapserver])
                            [("LAYERS", VString "show:0")]))
    by (apply source_wf; obj_wf_by_computation).
  split.
  - destruct (X3_effects_of_a_build _ Run.tile (Run.Int 1) Run.EPSG3857 Hwf)
      as [_ Hc].
    destruct Hc as (copy&Hh&_&_&_&_&Hk&Hget); [unfold zoom_covered; simpl; lia|].
    exists copy. split; [exact Hh|]. split; [|exact Hk].
    etrans; [apply Hget; not_reserved | by vm_compute].
  - destruct (X3_effects_of_a_build _ {| tc_z := 5; tc_x := 0; tc_y := 0 |}
                (Run.Int 1) Run.EPSG3857 Hwf) as [Hn _].
    apply Hn. unfold zoom_covered. simpl. lia.
Defined.

(** ** Defaults, user parameters, and the live parameter object *)

Section Layering.
Context {num : Type} `{JsNumber num} `{Imports num}.
Implicit Types (s : State num) (tileCoord : TileCoord) (pixelRatio : num)
  (projection : Projection).

(** Outside the reserved keys the query is the defaults overridden by
    the user parameters. *)
Lemma request_query_other s tileCoord pixelRatio projection key :
  State_wf s → key ∉ reserved_keys →
  obj_get key (request_query s tileCoord pixelRatio projection)
  = match obj_get key (stored s) with
    | Some v => Some v
    | None => obj_get key default_params
    end.
Proof.
  intros Hwf Hkey. unfold request_query.
  rewrite request_params_other by done.
  apply obj_get_assign. by apply stored_wf.
Qed.

(** X4.  A build over a URL list that is not empty, for a zoom level the
    grid covers, returns the selected URL, rewritten, with the
    parameters of the builder appended; among these, for every key but
    the five reserved ones, there is the value of the user parameters
    when they set the key, the default of lines 204-208 (F, FORMAT,
    TRANSPARENT) when they do not, and no parameter of that key
    otherwise.  (What the configured URL may itself hold after a '?' is
    part of the URL, not of these parameters.) *)
Theorem X4_user_parameters_over_defaults s tileCoord pixelRatio projection us key :
  State_wf s →
  urls (this s) = Some us → us ≠ [] →
  zoom_covered (active_grid (this s) projection) tileCoord →
  key ∉ reserved_keys →
  let query := request_query s tileCoord pixelRatio projection in
  ∃ url,
    select_url us tileCoord = Some url ∧ url ∈ us
    ∧ (fixedTileUrlFunction tileCoord pixelRatio projection s).1
      = Return (Some (appendParams (modify_url url) query))
    ∧ obj_wf query
    ∧ obj_get key query
      = match obj_get key (stored s) with
        | Some v => Some v
        | None =>
            obj_get key [("F", VString "image"); ("FORMAT", VString "PNG32");
                         ("TRANSPARENT", VBoolean true)]
        end.
Proof.
  intros Hwf Hurls Hne Hz Hkey. cbv zeta.
  destruct (fixedTileUrlFunction_builds s tileCoord pixelRatio projection us
              Hwf Hurls Hne Hz) as (url&Hsel&Hin&Hres).
  exists url. split; [done|]. split; [done|]. split; [done|].
  split; [by apply request_query_wf | by apply request_query_other].
Qed.

(** X5.  An update shows in the next build: after [updateParams], a
    build over a URL list that is not empty, for a zoom level the grid
    covers, returns a URL whose appended parameters hold, for every key
    of the update but the reserved ones, the value of the update. *)
Theorem X5_update_reaches_next_build s (update : ref) tileCoord pixelRatio
    projection us key v :
  State_wf s →
  urls (this s) = Some us → us ≠ [] →
  zoom_covered (active_grid (this s) projection) tileCoord →
  obj_get key (default [] (heap s !! update)) = Some v →
  key ∉ reserved_keys →
  let s' := (updateParams update s).2 in
  let query := request_query s' tileCoord pixelRatio projection in
  ∃ url,
    select_url us tileCoord = Some url ∧ url ∈ us
    ∧ (fixedTileUrlFunction tileCoord pixelRatio projection s').1
      = Return (Some (appendParams (modify_url url) query))
    ∧ obj_wf query
    ∧ obj_get key query = Some v.
Proof.
  intros Hwf Hurls Hne Hz Hv Hkey. cbv zeta.
  destruct (updateParams_spec s update Hwf) as (Hm&_&Hwf').
  destruct (fixedTileUrlFunction_builds (updateParams update s).2 tileCoord
              pixelRatio projection us Hwf' Hurls Hne Hz)
    as (url&Hsel&Hin&Hres).
  exists url. split; [done|]. split; [done|]. split; [done|].
  split; [by apply request_query_wf|].
  rewrite request_query_other, Hm by done.
  rewrite obj_get_assign, Hv; [done|].
  destruct Hwf as [_ Hall].
  destruct (heap s !! update) as [o|] eqn:E; simpl in *; [|done].
  by apply (Forall_lookup_1 _ _ _ _ Hall E).
Qed.

(** X6.  [getParams] returns the object of the source itself, not a
    copy, and leaves the state as it is.  When a client writes a
    property into that object, the stored parameters have it and the
    cache key is what it was; the key is current again after the next
    [updateParams], whatever the update.  And unless the key is a
    reserved one, the next build (over a URL list that is not empty, for
    a zoom level the grid covers) returns a URL whose appended
    parameters hold the value written. *)
Theorem X6_getParams_is_live s key v :
  State_wf s →
  let params := (getParams s).1 in
  let s' := (set_prop params key v s).2 in
  (getParams s).2 = s
  ∧ params = params_ (this s)
  ∧ stored s' = obj_set key v (stored s)
  ∧ key_ (this s') = key_ (this s)
  ∧ (∀ update, key_current (updateParams update s').2)
  ∧ (key ∉ reserved_keys →
     ∀ tileCoord pixelRatio projection us,
       urls (this s) = Some us → us ≠ [] →
       zoom_covered (active_grid (this s) projection) tileCoord →
       let query := request_query s' tileCoord pixelRatio projection in
       ∃ url,
         select_url us tileCoord = Some url ∧ url ∈ us
         ∧ (fixedTileUrlFunction tileCoord pixelRatio projection s').1
           = Return (Some (appendParams (modify_url url) query))
         ∧ obj_wf query
         ∧ obj_get key query = Some v).
Proof.
  intros Hwf. cbv zeta.
  assert (Hwf' : State_wf (set_prop (getParams s).1 key v s).2).
  { destruct Hwf as [Hp Hall]. split; cbn.
    - by rewrite length_alter.
    - apply Forall_alter; [done|]. intros o _ Ho. by apply obj_set_wf. }
  assert (Hs : stored (set_prop (getParams s).1 key v s).2
               = obj_set key v (stored s)).
  { destruct Hwf as [Hp _]. unfold stored. cbn.
    rewrite list_lookup_alter_eq.
    by destruct (lookup_lt_is_Some_2 _ _ Hp) as [o ->]. }
  split; [done|]. split; [done|]. split; [done|]. split; [done|]. split.
  - intros update. by apply updateParams_key_current.
  - intros Hkey tileCoord pixelRatio projection us Hurls Hne Hz.
    destruct (fixedTileUrlFunction_builds (set_prop (getParams s).1 key v s).2
                tileCoord pixelRatio projection us Hwf' Hurls Hne Hz)
      as (url&Hsel&Hin&Hres).
    exists url. split; [done|]. split; [done|]. split; [done|].
    split; [by apply request_query_wf|].
    by rewrite request_query_other, Hs, obj_get_set_eq.
Qed.

End Layering.

(** X4 on the user parameters {FORMAT: "jpg", LAYERS: "show:0"}: in the
    URL the build returns FORMAT is the user's, F is the default, LAYERS
    is passed on, and there is no parameter TIME. *)
Lemma X4_user_parameters_over_defaults_example :
  let s := Run.source (Some [Run.mapserver])
             [("FORMAT", VString "jpg"); ("LAYERS", VString "show:0")] in
  let query := request_query s Run.tile (Run.Int 1) Run.EPSG3857 in
  Run.result (fixedTileUrlFunction Run.tile (Run.Int 1) Run.EPSG3857) s
  = Return (Some "https://host/arcgis/rest/services/X/MapServer/export?F=image&FORMAT=jpg&TRANSPARENT=true&LAYERS=show%3A0&SIZE=256%2C256&BBOX=1024%2C1536%2C1536%2C2048&BBOXSR=3857&IMAGESR=3857&DPI=90")
  ∧ obj_get "FORMAT" query = Some (VString "jpg")
  ∧ obj_get "F" query = Some (VString "image")
  ∧ obj_get "LAYERS" query = Some (VString "show:0")
  ∧ obj_get "TIME" query = None.
Proof.
  cbv zeta.
  pose (s := Run.source (Some [Run.mapserver])
               [("FORMAT", VString "jpg"); ("LAYERS", VString "show:0")]).
  assert (Hwf : State_wf s) by (apply source_wf; obj_wf_by_computation).
  assert (Hz : zoom_covered (active_grid (this s) Run.EPSG3857) Run.tile)
    by (unfold zoom_covered; simpl; lia).
  assert (Hne : [Run.mapserver] ≠ []) by done.
  destruct (X4_user_parameters_over_defaults s Run.tile (Run.Int 1) Run.EPSG3857
              [Run.mapserver] "FORMAT" Hwf eq_refl Hne Hz)
    as (url&Hsel&_&Hres&_&H1); [not_reserved|].
  destruct (X4_user_parameters_over_defaults s Run.tile (Run.Int 1) Run.EPSG3857
              [Run.mapserver] "F" Hwf eq_refl Hne Hz)
    as (_&_&_&_&_&H2); [not_reserved|].
  destruct (X4_user_parameters_over_defaults s Run.tile (Run.Int 1) Run.EPSG3857
              [Run.mapserver] "LAYERS" Hwf eq_refl Hne Hz)
    as (_&_&_&_&_&H3); [not_reserved|].
  destruct (X4_user_parameters_over_defaults s Run.tile (Run.Int 1) Run.EPSG3857
              [Run.mapserver] "TIME" Hwf eq_refl Hne Hz)
    as (_&_&_&_&_&H4); [not_reserved|].
  injection Hsel as <-.
  split; [etrans; [exact Hres | by vm_compute]|].
  split; [exact H1|]. split; [exact H2|]. split; [exact H3 | exact H4].
Defined.

(** X5 on a source without parameters updated with {LAYERS: "show:1"}:
    the build after the update requests LAYERS=show:1. *)
Lemma X5_update_reaches_next_build_example :
  let s := Run.source_in (Some [Run.mapserver])
             [[]; [("LAYERS", VString "show:1")]] in
  let s' := Run.after (updateParams 1%nat) s in
  Run.result (fixedTileUrlFunction Run.tile (Run.Int 1) Run.EPSG3857) s'
  = Return (Some "https://host/arcgis/rest/services/X/MapServer/export?F=image&FORMAT=PNG32&TRANSPARENT=true&LAYERS=show%3A1&SIZE=256%2C256&BBOX=1024%2C1536%2C1536%2C2048&BBOXSR=3857&IMAGESR=3857&DPI=90")
  ∧ obj_get "LAYERS" (request_query s' Run.tile (Run.Int 1) Run.EPSG3857)
    = Some (VString "show:1").
Proof.
  cbv zeta.
  pose (s := Run.source_in (Some [Run.mapserver])
               [[]; [("LAYERS", VString "show:1")]]).
  assert (Hwf : State_wf s).
  { apply source_in_wf; [done|].
    constructor; [obj_wf_by_computation|].
    constructor; [obj_wf_by_computation | constructor]. }
  destruct (X5_update_reaches_next_build s 1%nat Run.tile (Run.Int 1) Run.EPSG3857
              [Run.mapserver] "LAYERS" (VString "show:1") Hwf eq_refl)
    as (url&Hsel&_&Hres&_&Hq).
  - done.
  - unfold zoom_covered. simpl. lia.
  - reflexivity.
  - not_reserved.
  - injection Hsel as <-.
    split; [etrans; [exact Hres | by vm_compute] | exact Hq].
Defined.

(** X6 on a source without parameters: after
    [source.getParams()['LAYERS'] = 'show:2'] the next build requests
    LAYERS=show:2 while the cache key is still the empty string. *)
Lemma X6_getParams_is_live_example :
  let s := Run.source (Some [Run.mapserver]) [] in
  let s' := Run.after (set_prop (Run.result getParams s) "LAYERS" (VString "show:2")) s in
  stored s' = [("LAYERS", VString "show:2")]
  ∧ key_ (this s') = ""
  ∧ Run.result (fixedTileUrlFunction Run.tile (Run.Int 1) Run.EPSG3857) s'
    = Return (Some "https://host/arcgis/rest/services/X/MapServer/export?F=image&FORMAT=PNG32&TRANSPARENT=true&LAYERS=show%3A2&SIZE=256%2C256&BBOX=1024%2C1536%2C1536%2C2048&BBOXSR=3857&IMAGESR=3857&DPI=90")
  ∧ obj_get "LAYERS" (request_query s' Run.tile (Run.Int 1) Run.EPSG3857)
    = Some (VString "show:2").
Proof.
  cbv zeta.
  assert (Hwf : State_wf (Run.source (Some [Run.mapserver]) []))
    by (apply source_wf; obj_wf_by_computation).
  destruct (X6_getParams_is_live (Run.source (Some [Run.mapserver]) [])
              "LAYERS" (VString "show:2") Hwf)
    as (_&_&Hs&Hk&_&Hbuild).
  destruct (Hbuild ltac:(not_reserved) Run.tile (Run.Int 1) Run.EPSG3857
              [Run.mapserver] eq_refl)
    as (url&Hsel&_&Hres&_&Hq).
  - done.
  - unfold zoom_covered. simpl. lia.
  - injection Hsel as <-.
    split; [exact Hs|]. split; [exact Hk|].
    split; [etrans; [exact Hres | by vm_compute] | exact Hq].
Defined.

(** ** [getRequestUrl_] and the object it is handed *)

Section RequestUrl.
Context {num : Type} `{JsNumber num} `{Imports num}.
Implicit Types (s : State num) (tileCoord : TileCoord) (pixelRatio : num)
  (projection : Projection).

Lemma alter_lookup {A : Type} (f : A → A) (l : list A) (i : nat) (x : A) :
  l !! i = Some x → alter f i l = <[i := f x]> l.
Proof.
  intros Hx. apply list_eq. intros j.
  destruct (decide (i = j)) as [<-|Hne].
  - rewrite list_lookup_alter_eq, Hx, list_lookup_insert_eq; [done|].
    by apply lookup_lt_Some in Hx.
  - by rewrite list_lookup_alter_ne, list_lookup_insert_ne.
Qed.

(** X7.  [getRequestUrl_] works on the object it is passed, in place.
    Without configured URLs it returns undefined and leaves the state as
    it is.  With a URL list it overwrites the five reserved keys of that
    object (SIZE with width and height joined by a comma, BBOX with the
    four numbers of the extent joined by commas, BBOXSR and IMAGESR with
    what follows the last colon of the projection code, DPI with the
    scaled DPI read from the object), keeps every other property of it,
    touches no other object; and it has done so even when it then throws
    for want of a URL.  The URL it returns carries the properties of the
    object after the assignments. *)
Theorem X7_getRequestUrl_mutates_params s (params : ref) o tileCoord size e
    pixelRatio projection :
  heap s !! params = Some o →
  let out := getRequestUrl_ tileCoord size e pixelRatio projection params s in
  match urls (this s) with
  | None => out = (Return None, s)
  | Some us =>
      ∃ o',
        out.2 = {| heap := <[params := o']> (heap s); this := this s |}
        ∧ obj_get "SIZE" o'
          = Some (VString (n_to_string (width size) +:+ ","
                           +:+ n_to_string (height size)))
        ∧ obj_get "BBOX" o'
          = Some (VString (Str.join ","
                             (n_to_string <$> [minX e; minY e; maxX e; maxY e])))
        ∧ obj_get "BBOXSR" o'
          = Some (VString (Str.pop (Str.split ":" (getCode projection))))
        ∧ obj_get "IMAGESR" o'
          = Some (VString (Str.pop (Str.split ":" (getCode projection))))
        ∧ obj_get "DPI" o' = Some (VNumber (scaled_dpi (obj_get "DPI" o) pixelRatio))
        ∧ (∀ key, key ∉ reserved_keys → obj_get key o' = obj_get key o)
        ∧ out.1 = match select_url us tileCoord with
                  | None => Throw TypeError
                  | Some url => Return (Some (appendParams (modify_url url) o'))
                  end
  end.
Proof.
  intros Ho. cbv zeta. pose proof (lookup_lt_Some _ _ _ Ho) as Hlt.
  unfold getRequestUrl_, bind, get_this, set_prop, get_prop, load, ret.
  cbn [this heap]. destruct (urls (this s)) as [us|]; [|done].
  exists (request_params size e pixelRatio projection o).
  assert (Hstep : ∀ f x (l : list (obj num)),
            length l = length (heap s) →
            alter f params (<[params := x]> l) = <[params := f x]> l).
  { intros f x l Hl.
    rewrite (alter_lookup f _ _ x), list_insert_insert_eq; [done|].
    apply list_lookup_insert_eq. lia. }
  assert (Hget : ∀ x (l : list (obj num)),
            length l = length (heap s) → <[params := x]> l !! params = Some x).
  { intros x l Hl. apply list_lookup_insert_eq. lia. }
  split; [|split; [|split; [|split; [|split; [|split; [|split]]]]]].
  - destruct (select_url us tileCoord); cbn [this heap snd];
      rewrite (alter_lookup _ _ _ _ Ho); by rewrite !Hstep, !Hget by done.
  - apply request_params_SIZE.
  - apply request_params_BBOX.
  - apply request_params_BBOXSR.
  - apply request_params_IMAGESR.
  - apply request_params_DPI.
  - intros key Hkey. by apply request_params_other.
  - destruct (select_url us tileCoord); cbn [this heap fst]; [|done].
    rewrite (alter_lookup _ _ _ _ Ho).
    by rewrite !Hstep, !Hget by done.
Qed.

End RequestUrl.

(** X7 on a source with an empty URL list, with [getRequestUrl_] called
    on the object of the user parameters itself: the call throws, and
    the object has got the five reserved keys and kept LAYERS. *)
Lemma X7_getRequestUrl_mutates_params_example :
  let s := Run.source (Some []) [("LAYERS", VString "show:0")] in
  let out := getRequestUrl_ Run.tile
               {| width := Run.Int 256; height := Run.Int 256 |}
               {| minX := Run.Int 0; minY := Run.Int 0;
                  maxX := Run.Int 100; maxY := Run.Int 100 |}
               (Run.Int 2) Run.EPSG3857 0%nat s in
  out.1 = Throw TypeError
  ∧ obj_get "SIZE" (stored out.2) = Some (VString "256,256")
  ∧ obj_get "BBOX" (stored out.2) = Some (VString "0,0,100,100")
  ∧ obj_get "BBOXSR" (stored out.2) = Some (VString "3857")
  ∧ obj_get "IMAGESR" (stored out.2) = Some (VString "3857")
  ∧ obj_get "DPI" (stored out.2) = Some (VNumber (Run.Int 180))
  ∧ obj_get "LAYERS" (stored out.2) = Some (VString "show:0").
Proof.
  cbv zeta.
  pose proof (X7_getRequestUrl_mutates_params
                (Run.source (Some []) [("LAYERS", VString "show:0")]) 0%nat
                [("LAYERS", VString "show:0")] Run.tile
                {| width := Run.Int 256; height := Run.Int 256 |}
                {| minX := Run.Int 0; minY := Run.Int 0;
                   maxX := Run.Int 100; maxY := Run.Int 100 |}
                (Run.Int 2) Run.EPSG3857 eq_refl) as Hx.
  cbv zeta in Hx.
  change (urls (this (Run.source (Some []) [("LAYERS", VString "show:0")])))
    with (Some (@nil string)) in Hx.
  destruct Hx as (o'&Hs&Hsize&Hbbox&Hsr&Hisr&Hdpi&Hother&Hr).
  split; [exact Hr|]. rewrite Hs.
  split; [exact Hsize|]. split; [exact Hbbox|]. split; [exact Hsr|].
  split; [exact Hisr|]. split; [exact Hdpi|].
  etrans; [apply Hother; not_reserved | reflexivity].
Defined.

(** ** Rewriting a URL twice *)

Lemma modify_url_export (p : string) :
  modify_url (p +:+ "MapServer/export") = p +:+ "MapServer/export".
Proof.
  unfold modify_url, Str.replace_at_end.
  assert (Str.strip_suffix ("MapServer" +:+ "/") (p +:+ "MapServer/export") = None) as ->
    by exact (strip_suffix_clash p "MapServer/expor" "t" "MapServer" "/" eq_refl ltac:(done)).
  assert (Str.strip_suffix "MapServer" (p +:+ "MapServer/export") = None) as ->
    by exact (strip_suffix_clash p "MapServer/expor" "t" "MapServe" "r" eq_refl ltac:(done)).
  assert (Str.strip_suffix ("ImageServer" +:+ "/") (p +:+ "MapServer/export") = None) as ->
    by exact (strip_suffix_clash p "MapServer/expor" "t" "ImageServer" "/" eq_refl ltac:(done)).
  assert (Str.strip_suffix "ImageServer" (p +:+ "MapServer/export") = None) as ->
    by exact (strip_suffix_clash p "MapServer/expor" "t" "ImageServe" "r" eq_refl ltac:(done)).
  done.
Qed.

Lemma modify_url_exportImage (p : string) :
  modify_url (p +:+ "ImageServer/exportImage") = p +:+ "ImageServer/exportImage".
Proof.
  unfold modify_url, Str.replace_at_end.
  assert (Str.strip_suffix ("MapServer" +:+ "/") (p +:+ "ImageServer/exportImage") = None) as ->
    by exact (strip_suffix_clash p "ImageServer/exportImag" "e" "MapServer" "/" eq_refl ltac:(done)).
  assert (Str.strip_suffix "MapServer" (p +:+ "ImageServer/exportImage") = None) as ->
    by exact (strip_suffix_clash p "ImageServer/exportImag" "e" "MapServe" "r" eq_refl ltac:(done)).
  assert (Str.strip_suffix ("ImageServer" +:+ "/") (p +:+ "ImageServer/exportImage") = None) as ->
    by exact (strip_suffix_clash p "ImageServer/exportImag" "e" "ImageServer" "/" eq_refl ltac:(done)).
  assert (Str.strip_suffix "ImageServer" (p +:+ "ImageServer/exportImage") = None) as ->
    by exact (strip_suffix_clash p "ImageServer/exportImag" "e" "ImageServe" "r" eq_refl ltac:(done)).
  done.
Qed.

(** Every URL is rewritten in one of three ways. *)
Lemma modify_url_cases (url : string) :
  (∃ p, modify_url url = p +:+ "MapServer/export")
  ∨ (∃ p, modify_url url = p +:+ "ImageServer/exportImage")
  ∨ modify_url url = url.
Proof.
  destruct (Str.strip_suffix ("MapServer" +:+ "/") url) as [p|] eqn:E1.
  { apply strip_suffix_Some in E1 as ->. left. exists p.
    apply modify_url_MapServer_slash. }
  destruct (Str.strip_suffix "MapServer" url) as [p|] eqn:E2.
  { apply strip_suffix_Some in E2 as ->. left. exists p.
    apply modify_url_MapServer. }
  destruct (Str.strip_suffix ("ImageServer" +:+ "/") url) as [p|] eqn:E3.
  { apply strip_suffix_Some in E3 as ->. right. left. exists p.
    apply modify_url_ImageServer_slash. }
  destruct (Str.strip_suffix "ImageServer" url) as [p|] eqn:E4.
  { apply strip_suffix_Some in E4 as ->. right. left. exists p.
    apply modify_url_ImageServer. }
  right. right. unfold modify_url, Str.replace_at_end. by rewrite E1, E2, E3, E4.
Qed.

(** X8.  The rewrite of lines 165-167 is idempotent: a URL that has been
    rewritten is not rewritten again.  So a URL configured with its
    export endpoint already in place is requested as it is, and the
    rewrite never appends twice. *)
Theorem X8_rewrite_is_idempotent (url : string) :
  modify_url (modify_url url) = modify_url url.
Proof.
  destruct (modify_url_cases url) as [[p ->]|[[p ->]|E]].
  - apply modify_url_export.
  - apply modify_url_exportImage.
  - by rewrite !E.
Qed.

(** ** Updates: twice, empty, in succession *)

Section ObjectAbsorb.
Context {num : Type}.
Implicit Types (o : obj num) (v : value num) (key : string).

Lemma obj_get_key key v o : obj_get key o = Some v → key ∈ o.*1.
Proof.
  intros Hin%obj_get_Some.
  by apply (list_elem_of_fmap_2 fst _ _ Hin).
Qed.

Lemma obj_wf_tail (kw : string * value num) o : obj_wf (kw :: o) → obj_wf o.
Proof.
  intros [Hnd Hs]. rewrite fmap_cons in Hnd, Hs.
  apply NoDup_cons in Hnd as [_ Hnd]. apply StronglySorted_inv in Hs as [Hs _].
  by split.
Qed.

(** Writing the value a property already has changes nothing. *)
Lemma obj_set_same key v o :
  obj_wf o → obj_get key o = Some v → obj_set key v o = o.
Proof.
  induction o as [|[k w] o IH]; simpl; [done|]. intros Hwf.
  destruct (String.eqb_spec k key) as [->|Hne]; [by intros [= ->]|].
  intros Hget. pose proof (obj_get_key _ _ _ Hget) as Hin.
  destruct Hwf as [Hnd Hs]. rewrite fmap_cons in Hnd, Hs. simpl in *.
  apply NoDup_cons in Hnd as [_ Hnd].
  apply StronglySorted_inv in Hs as [Hs Hall].
  rewrite Forall_forall in Hall. specialize (Hall _ Hin).
  unfold key_order in Hall. rewrite Hall. f_equal. by apply IH.
Qed.

(** Assigning properties the target already has, with the values it
    has, changes nothing. *)
Lemma obj_assign_absorb (target source : obj num) :
  obj_wf target → obj_wf source →
  (∀ key v, obj_get key source = Some v → obj_get key target = Some v) →
  obj_assign target source = target.
Proof.
  unfold obj_assign. intros Ht.
  induction source as [|[k w] source IH]; intros Hs Hsub; simpl; [done|].
  rewrite obj_set_same; [|done|].
  - apply IH; [by apply obj_wf_tail in Hs|].
    intros key v Hget. apply Hsub. simpl.
    destruct (String.eqb_spec k key) as [->|_]; [|done].
    destruct Hs as [Hnd _]. rewrite fmap_cons in Hnd.
    apply NoDup_cons in Hnd as [Hk _]. simpl in Hk.
    by apply obj_get_key in Hget.
  - apply Hsub. simpl. by rewrite String.eqb_refl.
Qed.

Lemma obj_assign_nil (target : obj num) : obj_assign target [] = target.
Proof. reflexivity. Qed.

(** A new key that is not an array index goes to the end. *)
Lemma obj_set_new key v o :
  array_index key = None → obj_get key o = None →
  obj_set key v o = o ++ [(key, v)].
Proof.
  intros Hidx. induction o as [|[k w] o IH]; simpl; [done|].
  destruct (String.eqb_spec k key) as [->|Hne]; [done|].
  intros Hget. unfold enumerated_before. rewrite Hidx. f_equal. by apply IH.
Qed.

End ObjectAbsorb.

Section Updates.
Context {num : Type} `{JsNumber num} `{Imports num}.
Implicit Types (s : State num).

Lemma heap_obj_wf s (r : ref) : State_wf s → obj_wf (default [] (heap s !! r)).
Proof.
  intros [_ Hall]. destruct (heap s !! r) as [o|] eqn:E; simpl.
  - by apply (Forall_lookup_1 _ _ _ _ Hall E).
  - split; constructor.
Qed.

Lemma alter_fixed {A : Type} (f : A → A) (l : list A) (i : nat) :
  (∀ x, l !! i = Some x → f x = x) → alter f i l = l.
Proof.
  intros Hf. apply list_eq. intros j.
  destruct (decide (i = j)) as [<-|Hne].
  - rewrite list_lookup_alter_eq. destruct (l !! i) as [x|] eqn:E; [|done].
    simpl. by rewrite Hf.
  - by rewrite list_lookup_alter_ne.
Qed.

(** X9.  [updateParams] is idempotent: applying the same update a
    second time changes neither the stored parameters nor the cache key
    nor anything else.  And updating a source with its own parameters,
    [updateParams(getParams())], leaves the heap as it is. *)
Theorem X9_update_is_idempotent s (update : ref) :
  State_wf s →
  (update ≠ params_ (this s) →
   (updateParams update (updateParams update s).2).2 = (updateParams update s).2)
  ∧ heap (updateParams (params_ (this s)) s).2 = heap s.
Proof.
  intros Hwf. pose proof Hwf as [Hp Hall]. split.
  - intros Hne. rewrite !updateParams_eq. cbv zeta. cbn [snd heap this params_ with_key].
    destruct (lookup_lt_is_Some_2 _ _ Hp) as [o Ho].
    rewrite (list_lookup_alter_ne _ _ _ _ (not_eq_sym Hne)).
    rewrite list_alter_alter_eq.
    assert (Hfix : alter ((λ t, obj_assign t (default [] (heap s !! update)))
                          ∘ (λ t, obj_assign t (default [] (heap s !! update))))
                         (params_ (this s)) (heap s)
                   = alter (λ t, obj_assign t (default [] (heap s !! update)))
                           (params_ (this s)) (heap s)).
    { apply list_alter_ext; [|done]. intros x Hx. simpl.
      apply obj_assign_absorb.
      - apply obj_assign_wf. by apply (Forall_lookup_1 _ _ _ _ Hall Hx).
      - by apply heap_obj_wf.
      - intros key v Hget. rewrite obj_get_assign by by apply heap_obj_wf.
        by rewrite Hget. }
    by rewrite Hfix.
  - rewrite updateParams_eq. cbv zeta. cbn [snd heap].
    apply alter_fixed. intros x Hx. rewrite Hx. simpl.
    apply obj_assign_absorb; [by apply (Forall_lookup_1 _ _ _ _ Hall Hx)..|done].
Qed.

(** X10.  [updateParams] writes to the object of the stored parameters
    and to the cache key, and to nothing else: it allocates no object,
    leaves the object of the update (when that is another object) and
    every other object as they are, and does not touch the URL list, the
    tile grid or the scratch extent. *)
Theorem X10_update_writes_params_only s (update : ref) :
  let s' := (updateParams update s).2 in
  length (heap s') = length (heap s)
  ∧ (∀ r : ref, r ≠ params_ (this s) → heap s' !! r = heap s !! r)
  ∧ this s' = with_key (this s) (key_ (this s')).
Proof.
  cbv zeta. rewrite updateParams_eq. cbv zeta. cbn [snd heap this].
  split; [apply length_alter|]. split; [|done].
  intros r Hr. by apply list_lookup_alter_ne.
Qed.

(** X11.  An update without properties leaves the stored parameters as
    they are; all it does is to compute the cache key anew, which makes
    the key current again after a client has written to the object that
    [getParams] returns. *)
Theorem X11_empty_update_refreshes_key s (update : ref) :
  State_wf s →
  heap s !! update = Some [] →
  let s' := (updateParams update s).2 in
  heap s' = heap s ∧ key_ (this s') = cache_key (stored s).
Proof.
  intros Hwf Hu. cbv zeta.
  destruct (updateParams_spec s update Hwf) as (Hm&Hk&_).
  rewrite Hk, Hm, Hu. split; [|done].
  rewrite updateParams_eq. cbv zeta. cbn [snd heap]. rewrite Hu.
  by apply list_alter_id.
Qed.

(** X12.  Of two updates in succession the later one wins: afterwards a
    key has the value of the second update if that sets it, else the
    value of the first update if that sets it, else the value it had. *)
Theorem X12_later_update_wins s (first second : ref) key :
  State_wf s →
  second ≠ params_ (this s) →
  let s' := (updateParams second (updateParams first s).2).2 in
  obj_get key (stored s')
  = match obj_get key (default [] (heap s !! second)) with
    | Some v => Some v
    | None =>
        match obj_get key (default [] (heap s !! first)) with
        | Some v => Some v
        | None => obj_get key (stored s)
        end
    end.
Proof.
  intros Hwf Hne. cbv zeta.
  destruct (updateParams_spec s first Hwf) as (Hm1&_&Hwf1).
  destruct (updateParams_spec _ second Hwf1) as (Hm2&_&_).
  assert (Hsame : heap (updateParams first s).2 !! second = heap s !! second).
  { rewrite updateParams_eq. cbv zeta. cbn [snd heap].
    by apply list_lookup_alter_ne. }
  rewrite Hm2, Hsame, Hm1.
  rewrite !obj_get_assign by by apply heap_obj_wf. done.
Qed.

(** X13.  Updating with one new parameter whose key is not an array
    index appends to the cache key: the new key is the old one, '/',
    and the new entry.  (A new array-index key would instead be
    enumerated, and show in the key, before every other parameter.) *)
Theorem X13_new_parameter_extends_key s (update : ref) key v :
  State_wf s →
  key_current s →
  stored s ≠ [] →
  heap s !! update = Some [(key, v)] →
  array_index key = None →
  obj_get key (stored s) = None →
  key_ (this (updateParams update s).2)
  = key_ (this s) +:+ "/" +:+ key +:+ "-" +:+ ToString v.
Proof.
  intros Hwf Hk Hne Hu Hidx Hnew.
  destruct (updateParams_spec s update Hwf) as (Hm&Hk'&_).
  rewrite Hk', Hm, Hu, Hk. cbn [default]. unfold obj_assign. simpl.
  rewrite obj_set_new by done. unfold cache_key.
  rewrite fmap_app. simpl. rewrite join_snoc; [done|].
  by destruct (stored s).
Qed.

End Updates.

Ltac heap_wf_by_computation :=
  repeat (constructor; [obj_wf_by_computation|]); constructor.

(** X9 on the stored set {a: "1"} and the update {b: "2"}, and on the
    source updated with its own parameters. *)
Lemma X9_update_is_idempotent_example :
  let s := Run.source_in None [[("a", VString "1")]; [("b", VString "2")]] in
  Run.after (updateParams 1%nat) (Run.after (updateParams 1%nat) s)
  = Run.after (updateParams 1%nat) s
  ∧ heap (Run.after (updateParams 0%nat) s) = heap s.
Proof.
  cbv zeta.
  assert (Hwf : State_wf (Run.source_in None
                            [[("a", VString "1")]; [("b", VString "2")]]))
    by (apply source_in_wf; [done | heap_wf_by_computation]).
  destruct (X9_update_is_idempotent _ 1%nat Hwf) as [Hidem _].
  destruct (X9_update_is_idempotent _ 0%nat Hwf) as [_ Hself].
  split; [apply Hidem; simpl; lia | exact Hself].
Defined.

(** X11 on a source whose parameter object a client has written LAYERS
    into: the cache key, still empty, becomes "LAYERS-x" with an empty
    update. *)
Lemma X11_empty_update_refreshes_key_example :
  let s := Run.after (set_prop 0%nat "LAYERS" (VString "x"))
             (Run.source_in None [[]; []]) in
  key_ (this s) = ""
  ∧ key_ (this (Run.after (updateParams 1%nat) s)) = "LAYERS-x".
Proof.
  cbv zeta. split; [reflexivity|].
  assert (Hwf : State_wf (Run.after (set_prop 0%nat "LAYERS" (VString "x"))
                            (Run.source_in None [[]; []])))
    by (split; [simpl; lia | heap_wf_by_computation]).
  destruct (X11_empty_update_refreshes_key _ 1%nat Hwf eq_refl) as [_ Hk].
  etrans; [exact Hk | by vm_compute].
Defined.

(** X12 on {a: "0"} updated with {a: "1", b: "1"} and then with
    {b: "2"}: a is "1" and b is "2". *)
Lemma X12_later_update_wins_example :
  let s := Run.source_in None
             [[("a", VString "0")]; [("a", VString "1"); ("b", VString "1")];
              [("b", VString "2")]] in
  let s' := Run.after (updateParams 2%nat) (Run.after (updateParams 1%nat) s) in
  obj_get "a" (stored s') = Some (VString "1")
  ∧ obj_get "b" (stored s') = Some (VString "2").
Proof.
  cbv zeta.
  assert (Hwf : State_wf (Run.source_in None
             [[("a", VString "0")]; [("a", VString "1"); ("b", VString "1")];
              [("b", VString "2")]]))
    by (apply source_in_wf; [done | heap_wf_by_computation]).
  split.
  - etrans; [apply (X12_later_update_wins _ 1%nat 2%nat "a" Hwf); simpl; lia|].
    reflexivity.
  - etrans; [apply (X12_later_update_wins _ 1%nat 2%nat "b" Hwf); simpl; lia|].
    reflexivity.
Defined.

(** X13 on {FORMAT: "jpg"} updated with {LAYERS: "show:0"}. *)
Lemma X13_new_parameter_extends_key_example :
  let s := Run.source_in None
             [[("FORMAT", VString "jpg")]; [("LAYERS", VString "show:0")]] in
  key_ (this s) = "FORMAT-jpg"
  ∧ key_ (this (Run.after (updateParams 1%nat) s)) = "FORMAT-jpg/LAYERS-show:0".
Proof.
  cbv zeta. split; [reflexivity|].
  assert (Hwf : State_wf (Run.source_in None
             [[("FORMAT", VString "jpg")]; [("LAYERS", VString "show:0")]]))
    by (apply source_in_wf; [done | heap_wf_by_computation]).
  etrans.
  - apply (X13_new_parameter_extends_key _ 1%nat "LAYERS" (VString "show:0") Hwf);
      [reflexivity | done | reflexivity | reflexivity | reflexivity].
  - reflexivity.
Defined.

(** ** Two sources over one parameter object *)

Section SharedParams.
Context {num : Type} `{JsNumber num} `{Imports num}.

Lemma TileArcGISRest_given (options : Options) (h : list (obj num)) (r : ref) :
  opt_params options = Some r →
  heap (TileArcGISRest options h) = h
  ∧ params_ (this (TileArcGISRest options h)) = r
  ∧ key_ (this (TileArcGISRest options h)) = cache_key (default [] (h !! r)).
Proof. intros E. unfold TileArcGISRest. by rewrite E. Qed.

(** X14.  The constructor keeps the object it is given in
    [options.params]; it does not copy it.  Two sources constructed over
    the same object share their parameters: [updateParams] on the first
    changes the parameters the second holds, and so what the second
    requests, while the cache key of the second stays the key of the
    old parameters. *)
Theorem X14_sources_share_given_params (options options' : Options)
    (h : list (obj num)) (r update : ref) :
  Forall obj_wf h → r < length h →
  opt_params options = Some r → opt_params options' = Some r →
  let a := TileArcGISRest options h in
  let b := TileArcGISRest options' h in
  let a' := (updateParams update a).2 in
  let b' := {| heap := heap a'; this := this b |} in
  heap a = h ∧ heap b = h
  ∧ (getParams a).1 = r ∧ (getParams b).1 = r
  ∧ stored b' = obj_assign (stored b) (default [] (h !! update))
  ∧ key_ (this b') = cache_key (stored b).
Proof.
  intros Hall Hr Ea Eb. cbv zeta.
  destruct (TileArcGISRest_given options h r Ea) as (Hha&Hpa&_).
  destruct (TileArcGISRest_given options' h r Eb) as (Hhb&Hpb&Hkb).
  destruct (TileArcGISRest_wf options h Hall) as [Hwf _].
  { intros r' E. rewrite Ea in E. by injection E as <-. }
  destruct (updateParams_spec _ update Hwf) as (Hm&_&_).
  split; [done|]. split; [done|]. split; [done|]. split; [done|].
  unfold stored in *. cbn [heap this]. rewrite Hpb, Hhb.
  change (params_ (this (updateParams update (TileArcGISRest options h)).2))
    with (params_ (this (TileArcGISRest options h))) in Hm.
  rewrite Hpa, Hha in Hm.
  split; [exact Hm|]. by rewrite Hkb.
Qed.

End SharedParams.

(** X14 on two sources over the object {LAYERS: "show:0"}, the first
    updated with {LAYERS: "show:1"}: the second holds show:1 under the
    cache key of show:0. *)
Lemma X14_sources_share_given_params_example :
  let h := [[("LAYERS", VString "show:0")]; [("LAYERS", VString "show:1")]]
           : list (obj Run.jsint) in
  let a := Run.source_in (Some ["https://a/MapServer"]) h in
  let b := Run.source_in (Some ["https://b/MapServer"]) h in
  let b' := {| heap := heap (Run.after (updateParams 1%nat) a); this := this b |} in
  stored b' = [("LAYERS", VString "show:1")]
  ∧ key_ (this b') = "LAYERS-show:0".
Proof.
  cbv zeta.
  destruct (X14_sources_share_given_params
              {| opt_urls := Some ["https://a/MapServer"]; opt_tileGrid := None;
                 opt_params := Some 0%nat |}
              {| opt_urls := Some ["https://b/MapServer"]; opt_tileGrid := None;
                 opt_params := Some 0%nat |}
              ([[("LAYERS", VString "show:0")]; [("LAYERS", VString "show:1")]]
               : list (obj Run.jsint))
              0%nat 1%nat)
    as (_&_&_&_&Hs&Hk).
  - heap_wf_by_computation.
  - simpl. lia.
  - reflexivity.
  - reflexivity.
  - split.
    + etrans; [exact Hs | reflexivity].
    + etrans; [exact Hk | reflexivity].
Defined.
